(** * Ts.ED CLI: the provider registry and the passport generate hook

    A shallow embedding of [ProvidersInfoService] (the provider registry of
    [@tsed/cli]) and of [PassportGenerateHook] (the [generate] hook of
    [@tsed/cli-plugin-passport]), and the properties of both that the
    specification of the scaffolding engine states.

    JavaScript strings are modelled by [string]; an optional property
    ([model?: string]) by [option]; a thrown exception by the [Throw] case of
    [Result]. *)

From Stdlib Require Import String Ascii List.
From stdpp Require Import base option list strings pretty gmap.

(** ** Results of calls that can throw *)

Inductive Error : Type :=
| TypeError   (** a property read on [undefined] *)
| Rejected (reason : string).  (** a rejected promise of a collaborator *)

Inductive Result (A : Type) : Type :=
| Ok (a : A)
| Throw (e : Error).
Arguments Ok {A} a.
Arguments Throw {A} e.

(** ** The provider registry: [ProvidersInfoService] *)

Record ProviderInfo : Type := mkProviderInfo {
  info_name    : string;
  info_value   : string;
  info_model   : option string;
  info_baseDir : option string;
  info_owner   : option string
}.

#[global] Instance ProviderInfo_eq_dec : EqDecision ProviderInfo.
Proof. solve_decision. Defined.

(** A JavaScript [Map<string, V>]: the entries in insertion order.  [set] on a
    key that is present replaces the value where the key stands; on a new key
    it appends the entry. *)
Module JsMap.
Section map.
Context {V : Type}.

Fixpoint set (k : string) (v : V) (m : list (string * V)) : list (string * V) :=
  match m with
  | [] => [(k, v)]
  | (k', v') :: m' =>
      if decide (k' = k) then (k, v) :: m' else (k', v') :: set k v m'
  end.

Fixpoint get (k : string) (m : list (string * V)) : option V :=
  match m with
  | [] => None
  | (k', v') :: m' => if decide (k' = k) then Some v' else get k m'
  end.

Definition keys (m : list (string * V)) : list string := m.*1.

Definition values (m : list (string * V)) : list V := m.*2.

End map.
End JsMap.

Module ProvidersInfoService.

(** [readonly map: Map<string, ProviderInfo> = new Map()] *)
Record t : Type := mk { map : list (string * ProviderInfo) }.

Definition create : t := {| map := [] |}.

Section service.
(** [Type<any>], the class of an owning component, and [nameOf] of
    [@tsed/cli-core], which gives the name under which an owner is recorded.
    [add] applies it to a missing owner as well. *)
Context {Owner : Type} (nameOf : option Owner → string).

(** [{...providerInfo, owner: nameOf(owner)}] *)
Definition withOwner (providerInfo : ProviderInfo) (owner : option Owner) : ProviderInfo :=
  {| info_name    := info_name providerInfo;
     info_value   := info_value providerInfo;
     info_model   := info_model providerInfo;
     info_baseDir := info_baseDir providerInfo;
     info_owner   := Some (nameOf owner) |}.

Definition add (providerInfo : ProviderInfo) (owner : option Owner) (this : t) : t :=
  {| map := JsMap.set (info_value providerInfo) (withOwner providerInfo owner) (map this) |}.

Definition get (value : string) (this : t) : option ProviderInfo :=
  JsMap.get value (map this).

(** [this.map.get(value)!.owner === nameOf(owner)]: the [!] is erased by the
    compiler, so the read of [owner] on a missing entry throws. *)
Definition isMyProvider (value : string) (owner : Owner) (this : t) : Result bool :=
  match JsMap.get value (map this) with
  | None => Throw TypeError
  | Some entry => Ok (bool_decide (info_owner entry = Some (nameOf (Some owner))))
  end.

Definition toArray (this : t) : list ProviderInfo := JsMap.values (map this).

(** A history of [add] calls, oldest first, run on a fresh registry. *)
Definition registered (adds : list (ProviderInfo * option Owner)) : t :=
  foldl (λ this a, add a.1 a.2 this) create adds.

(** What a call leaves in the registry. *)
Definition stored (a : ProviderInfo * option Owner) : ProviderInfo := withOwner a.1 a.2.

End service.

Section histories.
Context {Owner : Type}.

(** The keys a history registers, in call order. *)
Definition registeredValues (adds : list (ProviderInfo * option Owner)) : list string :=
  (λ a, info_value a.1) <$> adds.

(** The most recent call that registers [value]. *)
Definition lastAdd (value : string) (adds : list (ProviderInfo * option Owner))
  : option (ProviderInfo * option Owner) :=
  last (filter (λ a, info_value a.1 = value) adds).

(** The distinct keys of a history, each at the place of its first call. *)
Fixpoint firstRegistered (values : list string) : list string :=
  match values with
  | [] => []
  | v :: values' => v :: filter (λ v', v' ≠ v) (firstRegistered values')
  end.

(** The calls whose info is still in the registry (no later call registers
    the same key), in call order. *)
Fixpoint surviving (adds : list (ProviderInfo * option Owner))
  : list (ProviderInfo * option Owner) :=
  match adds with
  | [] => []
  | a :: adds' =>
      if decide (info_value a.1 ∈ registeredValues adds')
      then surviving adds'
      else a :: surviving adds'
  end.

End histories.

(** The reading of "registration order" under which each stored info stands
    where the call that stored it stands among the calls. *)
Definition inRegistrationOrder {Owner : Type} (nameOf : option Owner → string)
    (adds : list (ProviderInfo * option Owner)) : Prop :=
  toArray (registered nameOf adds) = stored nameOf <$> surviving adds.

(** The reading of the ownership check by the identity of the owner: true
    exactly for the owner of the most recent call, false for every other. *)
Definition ownedByIdentity {Owner : Type} (nameOf : option Owner → string)
    (adds : list (ProviderInfo * option Owner)) (value : string) (owner : Owner) : Prop :=
  ∀ a, lastAdd value adds = Some a →
    (isMyProvider nameOf value owner (registered nameOf adds) = Ok true ↔ a.2 = Some owner) ∧
    (a.2 ≠ Some owner → isMyProvider nameOf value owner (registered nameOf adds) = Ok false).

End ProvidersInfoService.

(** ** JavaScript values and objects *)

Inductive JsValue : Type :=
| VUndefined
| VNull
| VBool (b : bool)
| VNum (n : Z)
| VStr (s : string).

#[global] Instance JsValue_eq_dec : EqDecision JsValue.
Proof. solve_decision. Defined.

(** An object used as a key/value bag. *)
Abbreviation Obj := (gmap string JsValue).

(** [o.k]: a missing property reads as [undefined]. *)
Definition prop (o : Obj) (k : string) : JsValue := default VUndefined (o !! k).

(** A value inside a template literal.  How the language prints a number is
    not modelled: [numberToString] stands for it. *)
Definition toStr (numberToString : Z → string) (v : JsValue) : string :=
  match v with
  | VUndefined => "undefined"
  | VNull => "null"
  | VBool true => "true"
  | VBool false => "false"
  | VNum n => numberToString n
  | VStr s => s
  end.

(** [Array.prototype.includes]; on these values SameValueZero is equality. *)
Definition arrayIncludes (xs : list JsValue) (v : JsValue) : bool :=
  bool_decide (v ∈ xs).

(** [String.prototype.includes] *)
Fixpoint includes (s keyword : string) : bool :=
  String.prefix keyword s ||
  match s with
  | EmptyString => false
  | String _ s' => includes s' keyword
  end.

(** [keyword] occurs in [s] when the case of letters is ignored: once both are
    in lower case, as [toLowerCase] of the language gives it, [s] holds
    [keyword]. *)
Definition containsIgnoringCase (toLowerCase : string → string) (s keyword : string)
  : Prop :=
  ∃ before after, toLowerCase s = before +:+ toLowerCase keyword +:+ after.

(** ** The passport generate hook: [PassportGenerateHook] *)

(** An entry of the list the package index answers with. *)
Record DistTags : Type := { latest : option string }.

Record Package : Type := {
  pkg_name        : string;
  pkg_description : option string;
  pkg_dist_tags   : option DistTags
}.

(** A choice of the autocomplete question. *)
Record Choice : Type := { choice_name : string; choice_value : string }.

#[global] Instance Choice_eq_dec : EqDecision Choice.
Proof. solve_decision. Defined.

(** [IPassportGenerationOptions]: the properties the hook reads by name, and
    every other property of the context. *)
Record IPassportGenerationOptions : Type := {
  ctx_type            : string;
  ctx_name            : string;
  ctx_passportPackage : string;
  ctx_rest            : Obj
}.

(** The context as the object it is: the named properties are own properties
    like the others. *)
Definition toObject (ctx : IPassportGenerationOptions) : Obj :=
  <["passportPackage" := VStr (ctx_passportPackage ctx)]>
    (<["name" := VStr (ctx_name ctx)]>
       (<["type" := VStr (ctx_type ctx)]> (ctx_rest ctx))).

(** [SrcRendererService]: [templateExists(template, {templateDir})]. *)
Record SrcRendererService : Type := {
  templateExists : string → string → bool
}.

(** A call of [SrcRendererService.render(template, data, {output, templateDir})]. *)
Record RenderCall : Type := {
  render_template    : string;
  render_data        : Obj;
  render_output      : string;
  render_templateDir : string
}.

(** A task; its action runs later, against the renderer as it is then. *)
Record Task : Type := {
  title : string;
  task  : SrcRendererService → RenderCall
}.

(** What the hook reads and writes: its [packages] field, the registry, the
    calls it made to [passportClient.getPackages] and the calls it made to
    [projectPackageJson.addDependency] (oldest first). *)
Record World : Type := {
  packages     : option (list Package);
  providers    : ProvidersInfoService.t;
  fetches      : nat;
  dependencies : list (string * option string)
}.

(** Computations of the hook: they read and write the world and can throw;
    what was written before a throw stays written. *)
Definition M (A : Type) : Type := World → Result A * World.

#[global] Instance M_ret : MRet M := λ A a w, (Ok a, w).

#[global] Instance M_bind : MBind M := λ A B f m w,
  match m w with
  | (Ok a, w') => f a w'
  | (Throw e, w') => (Throw e, w')
  end.

(** A question of the prompt. *)
Record Question : Type := {
  q_type    : string;
  q_name    : string;
  q_message : string;
  q_when    : Obj → bool;
  q_source  : Obj → option string → M (list Choice)
}.

(** Modelled from the spec: the prompt resolver, which is not part of the
    sources.  A question whose [when] is false on the answers so far is left
    out of the form. *)
Definition renderedForm (questions : list Question) (state : Obj) : list Question :=
  filter (λ q, q_when q state = true) questions.

Module PassportGenerateHook.
Section hook.
Context {Owner : Type} (nameOf : option Owner → string).
(** The class [PassportGenerateHook] itself, as an owner. *)
Context (PassportGenerateHook : Owner).
(** [paramCase] of [change-case], [TEMPLATE_DIR] of [../utils/templateDir],
    and the printing of a number in a template literal. *)
Context (paramCase : string → string) (TEMPLATE_DIR : string)
    (numberToString : Z → string).
(** [PassportClient.getPackages]: the answer to the n-th call; and
    [String.prototype.toLowerCase]. *)
Context (getPackages : nat → Result (list Package))
    (toLowerCase : string → string).

(** [this.packages], read to call a method on it. *)
Definition thisPackages : M (list Package) := λ w,
  match packages w with
  | Some l => (Ok l, w)
  | None => (Throw TypeError, w)
  end.

(** [this.packages = ...] *)
Definition setPackages (l : list Package) : M unit := λ w,
  (Ok (), {| packages := Some l; providers := providers w;
             fetches := fetches w; dependencies := dependencies w |}).

(** [await this.passportClient.getPackages()] *)
Definition passportClient_getPackages : M (list Package) := λ w,
  (getPackages (fetches w),
   {| packages := packages w; providers := providers w;
      fetches := S (fetches w); dependencies := dependencies w |}).

(** [this.projectPackageJson.addDependency(name, version)] *)
Definition projectPackageJson_addDependency (name : string) (version : option string)
  : M unit := λ w,
  (Ok (), {| packages := packages w; providers := providers w;
             fetches := fetches w;
             dependencies := dependencies w ++ [(name, version)] |}).

(** [this.providersInfoService.isMyProvider(value, owner)] *)
Definition providersInfoService_isMyProvider (value : string) (owner : Owner) : M bool :=
  λ w, (ProvidersInfoService.isMyProvider nameOf value owner (providers w), w).

(** The constructor: it registers the [protocol] provider. *)
Definition constructor (providersInfoService : ProvidersInfoService.t) (w : World) : World :=
  {| packages := None;
     providers :=
       ProvidersInfoService.add nameOf
         {| info_name := "Protocol"; info_value := "protocol";
            info_model := None; info_baseDir := None; info_owner := None |}
         (Some PassportGenerateHook) providersInfoService;
     fetches := fetches w;
     dependencies := dependencies w |}.

(** [`${item.name} - ${item.description}`] *)
Definition displayName (item : Package) : string :=
  pkg_name item +:+ " - " +:+ default "undefined" (pkg_description item).

Definition toChoice (item : Package) : Choice :=
  {| choice_name := displayName item; choice_value := pkg_name item |}.

(** [if (keyword)]: [undefined] and the empty string are falsy. *)
Definition truthy (keyword : option string) : bool :=
  match keyword with
  | None => false
  | Some k => negb (String.eqb k "")
  end.

(** The [source] of the autocomplete question, over the [list] constant it
    closes on (here [choices]). *)
Definition source (choices : list Choice) (state : Obj) (keyword : option string)
  : M (list Choice) :=
  if truthy keyword
  then mret (filter (λ item,
               includes (toLowerCase (choice_name item))
                        (toLowerCase (default "" keyword)) = true) choices)
  else mret choices.

(** The [when] of the autocomplete question. *)
Definition when (state : Obj) : bool :=
  arrayIncludes [VStr "protocol"] (prop state "type").

Definition onGeneratePrompt (initialOption : Obj) : M (list Question) :=
  fetched ← passportClient_getPackages;
  setPackages fetched;;
  these ← thisPackages;
  let choices := toChoice <$> these in
  mret [ {| q_type := "autocomplete";
            q_name := "passportPackage";
            q_message := "Which passport package ?";
            q_when := when;
            q_source := source choices |} ].

Definition mapOptions (options : IPassportGenerationOptions) : Obj :=
  <["passportPackage" := VStr (ctx_passportPackage options)]>
    (<["protocolName" := VStr (paramCase (ctx_name options))]> (toObject options)).

Definition getTemplate (srcRenderService : SrcRendererService) (passportPackage : string)
  : string :=
  let template := passportPackage +:+ ".protocol.hbs" in
  if templateExists srcRenderService template TEMPLATE_DIR
  then template
  else "generic.protocol.hbs".

Definition getPassportPackageVersion (passportPackage : string) : M (option string) :=
  these ← thisPackages;
  let passportPkgDetails :=
    List.find (λ pkg, String.eqb (pkg_name pkg) passportPackage) these in
  mret (match passportPkgDetails with
        | Some details => pkg_dist_tags details ≫= latest
        | None => None
        end).

Definition onGenerateExec (ctx : IPassportGenerationOptions) : M (list Task) :=
  mine ← providersInfoService_isMyProvider (ctx_type ctx) PassportGenerateHook;
  if (mine : bool) then
    let mapped := mapOptions ctx in
    let symbolPath := prop mapped "symbolPath" in
    let data := delete "symbolPath" mapped in
    let passportPackage := ctx_passportPackage ctx in
    version ← getPassportPackageVersion passportPackage;
    projectPackageJson_addDependency (ctx_passportPackage ctx) version;;
    mret [ {| title := "Generate " +:+ ctx_type ctx +:+ " file to '"
                         +:+ toStr numberToString symbolPath +:+ ".ts'";
              task := λ srcRenderService,
                {| render_template := getTemplate srcRenderService passportPackage;
                   render_data := data;
                   render_output := toStr numberToString symbolPath +:+ ".ts";
                   render_templateDir := TEMPLATE_DIR |} |} ]
  else mret [].

End hook.
End PassportGenerateHook.

(** The reading of the context mapping as a frame on every property: each
    pair of the context is a pair of the mapped context. *)
Definition preservesEveryPair (paramCase : string → string)
    (ctx : IPassportGenerationOptions) : Prop :=
  ∀ k v, toObject ctx !! k = Some v → PassportGenerateHook.mapOptions paramCase ctx !! k = Some v.

(** The reading of the dispatch of [onGenerateExec] on the registered owner
    alone: nothing happens for a type of another owner, and for a type of the
    hook one task comes back and the package is among the dependencies. *)
Definition dispatchesOnOwner {Owner : Type} (nameOf : option Owner → string)
    (Hook : Owner) (paramCase : string → string) (TEMPLATE_DIR : string)
    (numberToString : Z → string)
    (ctx : IPassportGenerationOptions) (w : World) : Prop :=
  let exec := PassportGenerateHook.onGenerateExec nameOf Hook paramCase TEMPLATE_DIR numberToString ctx w in
  ∀ entry, ProvidersInfoService.get (ctx_type ctx) (providers w) = Some entry →
    (info_owner entry ≠ Some (nameOf (Some Hook)) → exec = (Ok [], w)) ∧
    (info_owner entry = Some (nameOf (Some Hook)) →
       ∃ t, exec.1 = Ok [t] ∧ ctx_passportPackage ctx ∈ (dependencies exec.2).*1).

(** ** A concrete setting

    Classes as JavaScript has them: two classes are two objects even when
    they carry the same [name].  [nameOf] reads the name of a class and
    gives ["undefined"] for a missing owner. *)
Module Fixture.

Record JsClass : Type := { class_id : nat; class_name : string }.

#[global] Instance JsClass_eq_dec : EqDecision JsClass.
Proof. solve_decision. Defined.

Definition nameOf (owner : option JsClass) : string :=
  match owner with
  | Some c => class_name c
  | None => "undefined"
  end.

Definition PassportGenerateHook : JsClass :=
  {| class_id := 0; class_name := "PassportGenerateHook" |}.

Definition HookA : JsClass := {| class_id := 1; class_name := "HookA" |}.

Definition HookB : JsClass := {| class_id := 2; class_name := "HookB" |}.

(** A second class that is also called [HookA], as a second copy of a plugin
    brings. *)
Definition HookA' : JsClass := {| class_id := 3; class_name := "HookA" |}.

Definition protocol : ProviderInfo :=
  {| info_name := "Protocol"; info_value := "protocol";
     info_model := None; info_baseDir := None; info_owner := None |}.

Definition controller : ProviderInfo :=
  {| info_name := "Controller"; info_value := "controller";
     info_model := Some "{{symbolName}}.controller"; info_baseDir := Some "controllers";
     info_owner := None |}.

Definition protocol2 : ProviderInfo :=
  {| info_name := "Passport protocol"; info_value := "protocol";
     info_model := None; info_baseDir := Some "protocols"; info_owner := None |}.

(** A stand-in for [toLowerCase] on ASCII text: the letters [A] to [Z] go to
    lower case, every other character stays. *)
Definition lowerChar (c : ascii) : ascii :=
  let n := nat_of_ascii c in
  if (65 <=? n)%nat && (n <=? 90)%nat then ascii_of_nat (n + 32) else c.

Fixpoint toLowerCase (s : string) : string :=
  match s with
  | EmptyString => EmptyString
  | String c s' => String (lowerChar c) (toLowerCase s')
  end.

(** A stand-in for the printing of numbers: the decimal digits, as the
    language prints the integers of moderate size. *)
Definition numberToString (n : Z) : string := pretty n.

(** A stand-in for [paramCase] on ASCII identifiers: a capital that follows
    another character opens a new word, words are joined by [-]. *)
Fixpoint paramCaseFrom (first : bool) (s : string) : string :=
  match s with
  | EmptyString => EmptyString
  | String c s' =>
      if negb first && negb (Ascii.eqb (lowerChar c) c)
      then String "-" (String (lowerChar c) (paramCaseFrom false s'))
      else String (lowerChar c) (paramCaseFrom false s')
  end.

Definition paramCase (s : string) : string := paramCaseFrom true s.

Definition server : ProviderInfo :=
  {| info_name := "Server"; info_value := "server";
     info_model := Some "{{symbolName}}.server"; info_baseDir := None;
     info_owner := None |}.

(** Three registrations; the third registers the key of the first again. *)
Definition history : list (ProviderInfo * option JsClass) :=
  [(protocol, Some HookA); (controller, Some HookB); (protocol2, Some PassportGenerateHook)].

Definition TEMPLATE_DIR : string := "/plugin/templates".

Definition passportLocal : Package :=
  {| pkg_name := "passport-local";
     pkg_description := Some "Local username and password strategy";
     pkg_dist_tags := Some {| latest := Some "1.0.0" |} |}.

Definition passportJwt : Package :=
  {| pkg_name := "passport-jwt";
     pkg_description := Some "JSON Web Token strategy";
     pkg_dist_tags := None |}.

Definition index : list Package := [passportLocal; passportJwt].

Definition getPackages (n : nat) : Result (list Package) := Ok index.

(** A renderer that knows the template of [passport-local] only. *)
Definition renderer : SrcRendererService :=
  {| templateExists := λ template dir,
       String.eqb template "passport-local.protocol.hbs" && String.eqb dir TEMPLATE_DIR |}.

Definition emptyWorld : World :=
  {| packages := None; providers := ProvidersInfoService.create;
     fetches := 0; dependencies := [] |}.

(** The world once the hook is constructed on a fresh registry. *)
Definition started : World :=
  PassportGenerateHook.constructor nameOf PassportGenerateHook
    ProvidersInfoService.create emptyWorld.

Definition protocolCtx : IPassportGenerationOptions :=
  {| ctx_type := "protocol"; ctx_name := "LocalLogin";
     ctx_passportPackage := "passport-local";
     ctx_rest := {[ "symbolPath" := VStr "protocols/LocalLoginProtocol" ]} |}.

Definition controllerCtx : IPassportGenerationOptions :=
  {| ctx_type := "controller"; ctx_name := "HelloWorld";
     ctx_passportPackage := "";
     ctx_rest := {[ "symbolPath" := VStr "controllers/HelloWorldController" ]} |}.

(** The world once the prompt phase has run after that. *)
Definition prompted : World :=
  {| packages := Some index; providers := providers started;
     fetches := 1; dependencies := [] |}.

(** Three hooks, each the owner of one type, after the prompt phase. *)
Definition threeHooks : World :=
  {| packages := Some index;
     providers :=
       ProvidersInfoService.registered nameOf
         [(protocol, Some PassportGenerateHook); (controller, Some HookA);
          (server, Some HookB)];
     fetches := 1; dependencies := [] |}.

(** A context that brings a [protocolName] of its own. *)
Definition renamedCtx : IPassportGenerationOptions :=
  {| ctx_type := "protocol"; ctx_name := "LocalLogin";
     ctx_passportPackage := "passport-local";
     ctx_rest := {[ "protocolName" := VStr "LocalStrategy" ]} |}.

End Fixture.

(** ** The init command: [InitCmd] *)

(** [String.prototype.endsWith]: the suffix is the string or the end of one of
    its tails. *)
Fixpoint endsWith (s suffix : string) : bool :=
  String.eqb s suffix ||
  match s with
  | EmptyString => false
  | String _ s' => endsWith s' suffix
  end.

(** [String.prototype.split] on a separator of one character: the empty
    string gives one empty fragment. *)
Fixpoint split (separator : ascii) (s : string) : list string :=
  match s with
  | EmptyString => [EmptyString]
  | String c s' =>
      if Ascii.eqb c separator then EmptyString :: split separator s'
      else match split separator s' with
           | fragment :: fragments => String c fragment :: fragments
           | [] => [String c EmptyString]
           end
  end.

Module InitCmd.

(** [FeatureValue] of [../../services/Features], as far as the command reads
    it: the [type] and the two optional blocks of dependencies. *)
Record FeatureValue : Type := {
  feature_type            : string;
  feature_dependencies    : option (list (string * string));
  feature_devDependencies : option (list (string * string))
}.

(** What a property of the context, or an entry of an array in it, can hold:
    a feature, or a value that is none. *)
Inductive Element : Type :=
| EPlain (v : JsValue)
| EFeature (f : FeatureValue).

(** A property of the context: one element, or an array of elements. *)
Inductive ContextValue : Type :=
| Single (e : Element)
| Several (es : list Element).

(** [Partial<InitCmdContext>]: the two properties [$mapContext] reads by
    name, and the other own properties, in the order of [Object.entries]. *)
Record InitCmdContext : Type := {
  init_root        : option string;
  init_projectName : option string;
  init_entries     : list (string * ContextValue)
}.

(** What [$mapContext] writes besides its result: the object [ctx] it was
    given, and [this.packageJson.dir]. *)
Record State : Type := {
  ctx : gmap string ContextValue;
  dir : string
}.

Definition str (s : string) : ContextValue := Single (EPlain (VStr s)).

Definition flag : ContextValue := Single (EPlain (VBool true)).

(** A string in a condition or on the left of [||]: [undefined] and the empty
    string are falsy. *)
Definition truthyString (s : option string) : option string :=
  match s with
  | Some s => if String.eqb s "" then None else Some s
  | None => None
  end.

(** [[].concat(value)] *)
Definition concatValue (value : ContextValue) : list Element :=
  match value with
  | Single e => [e]
  | Several es => es
  end.

(** [Object.entries(ctx).filter(([key]) => key.startsWith("features"))] *)
Definition featureEntries (entries : list (string * ContextValue))
  : list (string * ContextValue) :=
  filter (λ entry, String.prefix "features" entry.1 = true) entries.

(** The array [features] once every entry is pushed. *)
Definition featureElements (entries : list (string * ContextValue)) : list Element :=
  featureEntries entries ≫= (λ entry, concatValue entry.2).

Section command.
(** [paramCase] and [camelCase] of [change-case], [basename] and [join] of
    [path], and [this.configuration.project?.srcDir]. *)
Context (paramCase camelCase : string → string).
Context (basename : string → string) (join : string → string → string).
Context (srcDir : option string).

(** [paramCase(ctx.projectName || basename(this.packageJson.dir))] *)
Definition projectNameOf (c : InitCmdContext) (packageJsonDir : string) : string :=
  paramCase (default (basename packageJsonDir) (truthyString (init_projectName c))).

(** [this.packageJson.dir] after the condition on [ctx.root]. *)
Definition dirOf (c : InitCmdContext) (packageJsonDir : string) : string :=
  match truthyString (init_root c) with
  | Some root =>
      if negb (String.eqb root ".") && negb (endsWith packageJsonDir root)
      then join packageJsonDir (projectNameOf c packageJsonDir)
      else packageJsonDir
  | None => packageJsonDir
  end.

(** The object [ctx] once [projectName] is assigned. *)
Definition objectOf (c : InitCmdContext) (packageJsonDir : string)
  : gmap string ContextValue :=
  <["projectName" := str (projectNameOf c packageJsonDir)]>
    (match init_root c with
     | Some root => <["root" := str root]> (list_to_map (init_entries c))
     | None => list_to_map (init_entries c)
     end).

(** [delete ctx[key]] for every entry of the filtered list. *)
Definition deleteFeatures (entries : list (string * ContextValue))
    (o : gmap string ContextValue) : gmap string ContextValue :=
  foldl (λ o entry, delete entry.1 o) o (featureEntries entries).

(** [feature.type.split(":").forEach(type => { ctx[camelCase(type)] = true })] *)
Definition setFlagsOf (f : FeatureValue) (o : gmap string ContextValue)
  : gmap string ContextValue :=
  foldl (λ o type, <[camelCase type := flag]> o) o (split ":" (feature_type f)).

(** [features.forEach(feature => ...)]: the read of [type] on an element that
    is no feature gives nothing to split, and throws. *)
Fixpoint setFlags (features : list Element) (o : gmap string ContextValue)
  : Result unit * gmap string ContextValue :=
  match features with
  | [] => (Ok (), o)
  | EFeature f :: features' => setFlags features' (setFlagsOf f o)
  | EPlain _ :: _ => (Throw TypeError, o)
  end.

Definition mapContext (c : InitCmdContext) (packageJsonDir : string)
  : Result (gmap string ContextValue) * State :=
  let dir' := dirOf c packageJsonDir in
  let features := featureElements (init_entries c) in
  let deleted := deleteFeatures (init_entries c) (objectOf c packageJsonDir) in
  match setFlags features deleted with
  | (Ok _, flagged) =>
      (Ok (<["srcDir" := Single (EPlain (from_option VStr VUndefined srcDir))]>
             (<["features" := Several features]> flagged)),
       {| ctx := flagged; dir := dir' |})
  | (Throw e, flagged) => (Throw e, {| ctx := flagged; dir := dir' |})
  end.

(** The keys of the flags the features of a list set. *)
Definition flagKeys (features : list FeatureValue) : list string :=
  features ≫= (λ f, camelCase <$> split ":" (feature_type f)).

End command.

(** A call of [addFeatures] on the manifest: [addDependencies(block, ctx)] or
    [addDevDependencies(block, ctx)]; the second argument is the context of
    the command in every call and is left out. *)
Inductive ManifestCall : Type :=
| AddDependencies (block : list (string * string))
| AddDevDependencies (block : list (string * string)).

(** [addFeatures(ctx)], over [ctx.features] and the calls made so far (oldest
    first).  A block that is present is truthy, also when it is empty. *)
Definition addFeatures (features : list FeatureValue) (calls : list ManifestCall)
  : list ManifestCall :=
  foldl (λ calls feature,
           let calls :=
             match feature_dependencies feature with
             | Some block => calls ++ [AddDependencies block]
             | None => calls
             end in
           match feature_devDependencies feature with
           | Some block => calls ++ [AddDevDependencies block]
           | None => calls
           end)
        calls features.

End InitCmd.

(** A concrete setting for the init command. *)
Module InitFixture.
Import InitCmd.

Definition typeorm : FeatureValue :=
  {| feature_type := "typeorm:mysql";
     feature_dependencies := Some [("@tsed/typeorm", "latest"); ("mysql", "latest")];
     feature_devDependencies := None |}.

Definition swagger : FeatureValue :=
  {| feature_type := "swagger";
     feature_dependencies := Some [("@tsed/swagger", "latest")];
     feature_devDependencies := None |}.

(** A stand-in for [camelCase]: the identity on words in lower case. *)
Definition camelCase (s : string) : string := s.

(** Stand-ins for [basename] and [join] on paths with [/]. *)
Definition basename (path : string) : string := default "" (last (split "/" path)).

Definition join (a b : string) : string := a +:+ "/" +:+ b.

(** Answers of the prompt: a project in a new directory, two features chosen
    from the list and one chosen for the database. *)
Definition answers : InitCmdContext :=
  {| init_root := Some "my-app";
     init_projectName := Some "MyApp";
     init_entries :=
       [("tsedVersion", str "latest");
        ("features", Several [EFeature swagger]);
        ("featuresTypeORM", Single (EFeature typeorm))] |}.

(** Answers in which a key that starts with [features] holds a string. *)
Definition badAnswers : InitCmdContext :=
  {| init_root := Some "my-app";
     init_projectName := None;
     init_entries :=
       [("features", Several [EFeature swagger]);
        ("featuresNote", str "none")] |}.

End InitFixture.

(** * Properties *)

(** A closed decidable statement, settled by evaluating its decision. *)
Ltac by_evaluation := apply (bool_decide_unpack _); vm_compute; exact I.

(** ** The insertion-ordered map *)

Module JsMapFacts.
Section facts.
Context {V : Type}.
Implicit Types (m : list (string * V)) (k : string) (v : V).

Lemma get_set_eq m k v : JsMap.get k (JsMap.set k v m) = Some v.
Proof.
  induction m as [|[k' v'] m IH]; simpl.
  - by rewrite decide_True.
  - destruct (decide (k' = k)) as [->|Hne]; simpl.
    + by rewrite decide_True.
    + by rewrite decide_False.
Qed.

Lemma get_set_ne m k k' v : k ≠ k' → JsMap.get k' (JsMap.set k v m) = JsMap.get k' m.
Proof.
  intros Hne. induction m as [|[k0 v0] m IH]; simpl.
  - by rewrite decide_False.
  - destruct (decide (k0 = k)) as [->|Hk0]; simpl.
    + by rewrite !decide_False.
    + by rewrite IH.
Qed.

Lemma get_None m k : JsMap.get k m = None ↔ k ∉ JsMap.keys m.
Proof.
  unfold JsMap.keys. induction m as [|[k' v'] m IH]; simpl.
  - split; [intros _; apply not_elem_of_nil | done].
  - rewrite not_elem_of_cons. destruct (decide (k' = k)) as [->|Hne].
    + split; [done | intros [? _]; done].
    + rewrite IH. split; [by intros ? | by intros [_ ?]].
Qed.

Lemma set_present m k v : k ∈ JsMap.keys m → JsMap.keys (JsMap.set k v m) = JsMap.keys m.
Proof.
  unfold JsMap.keys. induction m as [|[k' v'] m IH]; simpl.
  - by intros ?%elem_of_nil.
  - intros Hin. destruct (decide (k' = k)) as [->|Hne]; simpl; [done|].
    f_equal. apply IH. apply elem_of_cons in Hin as [->|]; done.
Qed.

Lemma set_fresh m k v : k ∉ JsMap.keys m → JsMap.set k v m = m ++ [(k, v)].
Proof.
  unfold JsMap.keys. induction m as [|[k' v'] m IH]; simpl; [done|].
  intros [Hne Hnin]%not_elem_of_cons.
  rewrite decide_False by done. by rewrite IH.
Qed.

Lemma keys_set m k v :
  JsMap.keys (JsMap.set k v m) =
  if decide (k ∈ JsMap.keys m) then JsMap.keys m else JsMap.keys m ++ [k].
Proof.
  destruct (decide (k ∈ JsMap.keys m)) as [Hin|Hnin].
  - by apply set_present.
  - rewrite set_fresh by done. unfold JsMap.keys. by rewrite fmap_app.
Qed.

Lemma NoDup_keys_set m k v : NoDup (JsMap.keys m) → NoDup (JsMap.keys (JsMap.set k v m)).
Proof.
  intros Hnd. rewrite keys_set. case_decide; [done|].
  apply NoDup_app. split_and!; [done| |apply NoDup_singleton].
  intros x Hx ->%list_elem_of_singleton. done.
Qed.

(** With no key twice, the values are the lookups of the keys, in order. *)
Lemma values_lookup m :
  NoDup (JsMap.keys m) → JsMap.values m = omap (λ k, JsMap.get k m) (JsMap.keys m).
Proof.
  unfold JsMap.keys, JsMap.values. induction m as [|[k v] m IH]; csimpl; [done|].
  intros [Hnin Hnd]%NoDup_cons. rewrite decide_True by done. csimpl.
  f_equal. rewrite IH by done. apply list_omap_ext.
  apply Forall_Forall2_diag, Forall_forall. intros k' Hk'.
  rewrite decide_False; [done|]. by intros ->.
Qed.

End facts.
End JsMapFacts.

(** ** The provider registry *)

Module RegistryFacts.
Import ProvidersInfoService.

Section histories.
Context {Owner : Type}.
Implicit Types (adds : list (ProviderInfo * option Owner)) (a : ProviderInfo * option Owner).

Lemma lastAdd_snoc adds a value :
  lastAdd value (adds ++ [a]) =
  if decide (info_value a.1 = value) then Some a else lastAdd value adds.
Proof.
  unfold lastAdd. rewrite filter_app. simpl.
  rewrite filter_cons, filter_nil. case_decide.
  - apply last_snoc.
  - by rewrite app_nil_r.
Qed.

Lemma lastAdd_None adds value : value ∉ registeredValues adds → lastAdd value adds = None.
Proof.
  unfold lastAdd, registeredValues. intros Hnin. apply last_None.
  apply elem_of_nil_inv. intros a [Ha Hin]%list_elem_of_filter.
  apply Hnin, list_elem_of_fmap. by exists a.
Qed.

Lemma firstRegistered_elem_of (values : list string) v :
  v ∈ firstRegistered values ↔ v ∈ values.
Proof.
  induction values as [|v' values IH]; simpl; [done|].
  rewrite !elem_of_cons, list_elem_of_filter, IH.
  destruct (decide (v = v')); intuition congruence.
Qed.

Lemma firstRegistered_snoc (values : list string) v :
  firstRegistered (values ++ [v]) =
  if decide (v ∈ values) then firstRegistered values else firstRegistered values ++ [v].
Proof.
  induction values as [|v' values IH].
  - by rewrite decide_False by apply not_elem_of_nil.
  - cbn [app firstRegistered]. rewrite IH. destruct (decide (v = v')) as [->|Hne].
    + rewrite (decide_True (P := v' ∈ v' :: values)) by apply list_elem_of_here.
      case_decide; [done|].
      rewrite filter_app, filter_cons, filter_nil.
      rewrite decide_False by (by intros ?). by rewrite app_nil_r.
    + destruct (decide (v ∈ values)) as [Hin|Hnin].
      * by rewrite decide_True by (by apply list_elem_of_further).
      * rewrite decide_False by (rewrite elem_of_cons; intuition congruence).
        rewrite filter_app, filter_cons, filter_nil.
        by rewrite decide_True by done.
Qed.

Lemma filter_other_id (values : list string) v :
  v ∉ values → filter (λ v', v' ≠ v) values = values.
Proof.
  induction values as [|v' values IH]; [done|].
  intros [Hne Hnin]%not_elem_of_cons.
  rewrite filter_cons, decide_True by done. by rewrite IH.
Qed.

Lemma firstRegistered_NoDup (values : list string) :
  NoDup values → firstRegistered values = values.
Proof.
  induction 1 as [|v values Hnin Hnd IH]; simpl; [done|].
  by rewrite IH, filter_other_id.
Qed.

End histories.

Section registry.
Context {Owner : Type} (nameOf : option Owner → string).
Implicit Types (adds : list (ProviderInfo * option Owner)) (a : ProviderInfo * option Owner).

Lemma registered_snoc adds a :
  registered nameOf (adds ++ [a]) = add nameOf a.1 a.2 (registered nameOf adds).
Proof. unfold registered. by rewrite foldl_snoc. Qed.

Lemma info_value_stored a : info_value (stored nameOf a) = info_value a.1.
Proof. done. Qed.

Lemma get_registered adds value :
  get value (registered nameOf adds) = stored nameOf <$> lastAdd value adds.
Proof.
  induction adds as [|a adds IH] using rev_ind; [done|].
  rewrite registered_snoc, lastAdd_snoc. unfold get, add in *. simpl.
  case_decide as Hv.
  - rewrite Hv. apply JsMapFacts.get_set_eq.
  - by rewrite JsMapFacts.get_set_ne.
Qed.

Lemma keys_registered adds :
  JsMap.keys (map (registered nameOf adds)) = firstRegistered (registeredValues adds).
Proof.
  induction adds as [|a adds IH] using rev_ind; [done|].
  rewrite registered_snoc. unfold registeredValues in *. rewrite fmap_snoc.
  rewrite firstRegistered_snoc. unfold add. simpl.
  rewrite JsMapFacts.keys_set, IH.
  destruct (decide (info_value a.1 ∈ (λ a0, info_value a0.1) <$> adds)) as [Hin|Hnin].
  - by rewrite decide_True by (by apply firstRegistered_elem_of).
  - by rewrite decide_False by (by rewrite firstRegistered_elem_of).
Qed.

Lemma keys_registered_NoDup adds : NoDup (JsMap.keys (map (registered nameOf adds))).
Proof.
  induction adds as [|a adds IH] using rev_ind; [apply NoDup_nil_2|].
  rewrite registered_snoc. by apply JsMapFacts.NoDup_keys_set.
Qed.

(** Every entry stands under the key its info carries. *)
Lemma keyed_by_value adds :
  Forall (λ e, info_value e.2 = e.1) (map (registered nameOf adds)).
Proof.
  induction adds as [|a adds IH] using rev_ind; [apply Forall_nil_2|].
  rewrite registered_snoc. unfold add. simpl.
  generalize dependent (map (registered nameOf adds)). clear adds.
  intros m. induction m as [|[k e] m IHm]; intros Hm; simpl.
  - by repeat constructor.
  - apply Forall_cons in Hm as [Hk Hm]. case_decide.
    + by constructor.
    + constructor; [done | by apply IHm].
Qed.

Lemma values_of_toArray adds :
  info_value <$> toArray (registered nameOf adds) = JsMap.keys (map (registered nameOf adds)).
Proof.
  unfold toArray, JsMap.values, JsMap.keys.
  pose proof (keyed_by_value adds) as Hk.
  induction (map (registered nameOf adds)) as [|[k e] m IH]; csimpl; [done|].
  apply Forall_cons in Hk as [Hk Hm]. simpl in Hk. by rewrite Hk, IH.
Qed.

End registry.

(** C1.  After any history of [add] calls, [get value] is the info of the most
    recent call that registers [value], with [owner] set to the name of the
    owner of that call; no key stands twice in the registry (neither as a key
    of the map nor as the [value] of a stored info); and [get] gives
    [undefined] for a value no call registers. *)
Theorem get_returns_last_registration {Owner : Type} (nameOf : option Owner → string)
    (adds : list (ProviderInfo * option Owner)) (value : string) :
  get value (registered nameOf adds) = stored nameOf <$> lastAdd value adds ∧
  (∀ a, lastAdd value adds = Some a →
     info_owner <$> get value (registered nameOf adds) = Some (Some (nameOf a.2))) ∧
  NoDup (JsMap.keys (map (registered nameOf adds))) ∧
  NoDup (info_value <$> toArray (registered nameOf adds)) ∧
  (value ∉ registeredValues adds → get value (registered nameOf adds) = None).
Proof.
  split_and!.
  - apply get_registered.
  - intros a Ha. by rewrite get_registered, Ha.
  - apply keys_registered_NoDup.
  - rewrite values_of_toArray. apply keys_registered_NoDup.
  - intros Hnin. by rewrite get_registered, lastAdd_None.
Qed.

Lemma get_returns_last_registration_witness :
  get "protocol" (registered Fixture.nameOf Fixture.history) =
    Some {| info_name := "Passport protocol"; info_value := "protocol";
            info_model := None; info_baseDir := Some "protocols";
            info_owner := Some "PassportGenerateHook" |} ∧
  info_owner <$> get "protocol" (registered Fixture.nameOf Fixture.history) =
    Some (Some "PassportGenerateHook") ∧
  get "server" (registered Fixture.nameOf Fixture.history) = None.
Proof.
  destruct (get_returns_last_registration Fixture.nameOf Fixture.history "protocol")
    as (Hget & Howner & _).
  destruct (get_returns_last_registration Fixture.nameOf Fixture.history "server")
    as (_ & _ & _ & _ & Hnone).
  split_and!.
  - by rewrite Hget.
  - by apply (Howner (Fixture.protocol2, Some Fixture.PassportGenerateHook)).
  - apply Hnone. by_evaluation.
Defined.

(** C2, as amended.  For a value that some call registers, the ownership
    check compares names: it gives true exactly when [nameOf] of the asking
    owner is the name recorded by the most recent call for that value, and
    false otherwise.  The owner of that most recent call itself always gets
    true. *)
Theorem isMyProvider_compares_names {Owner : Type} (nameOf : option Owner → string)
    (adds : list (ProviderInfo * option Owner)) (value : string) (owner : Owner)
    (a : ProviderInfo * option Owner) :
  lastAdd value adds = Some a →
  (isMyProvider nameOf value owner (registered nameOf adds) = Ok true
     ↔ nameOf (Some owner) = nameOf a.2) ∧
  (nameOf (Some owner) ≠ nameOf a.2 →
     isMyProvider nameOf value owner (registered nameOf adds) = Ok false) ∧
  (a.2 = Some owner →
     isMyProvider nameOf value owner (registered nameOf adds) = Ok true).
Proof.
  intros Ha. unfold isMyProvider.
  pose proof (get_registered nameOf adds value) as Hget. unfold get in Hget.
  rewrite Hget, Ha. simpl. split_and!.
  - split.
    + intros [= Hb]. apply bool_decide_eq_true in Hb. congruence.
    + intros ->. by rewrite bool_decide_eq_true_2.
  - intros Hne. rewrite bool_decide_eq_false_2; [done|]. congruence.
  - intros ->. by rewrite bool_decide_eq_true_2.
Qed.

Lemma isMyProvider_compares_names_witness :
  isMyProvider Fixture.nameOf "protocol" Fixture.HookA
    (registered Fixture.nameOf [(Fixture.protocol, Some Fixture.HookA)]) = Ok true ∧
  isMyProvider Fixture.nameOf "protocol" Fixture.HookB
    (registered Fixture.nameOf [(Fixture.protocol, Some Fixture.HookA)]) = Ok false.
Proof.
  pose proof (λ owner, isMyProvider_compares_names Fixture.nameOf
                [(Fixture.protocol, Some Fixture.HookA)] "protocol" owner
                (Fixture.protocol, Some Fixture.HookA) eq_refl) as H.
  split.
  - apply (H Fixture.HookA). reflexivity.
  - apply (H Fixture.HookB). discriminate.
Defined.

(** C2, as stated, fails: after a registration by [HookA], the check is true
    for [HookA'], a second class of the same name, which is another owner. *)
Lemma isMyProvider_true_for_namesake :
  isMyProvider Fixture.nameOf "protocol" Fixture.HookA'
    (registered Fixture.nameOf [(Fixture.protocol, Some Fixture.HookA)]) = Ok true ∧
  Fixture.HookA' ≠ Fixture.HookA ∧
  ¬ ownedByIdentity Fixture.nameOf
      [(Fixture.protocol, Some Fixture.HookA)] "protocol" Fixture.HookA'.
Proof.
  split_and!; [reflexivity | discriminate |].
  intros H. destruct (H _ eq_refl) as [[Htrue _] _].
  specialize (Htrue eq_refl). discriminate Htrue.
Qed.

(** C3.  For a value that no call registers, the ownership check throws on
    the read of [owner] of the missing entry, whoever asks. *)
Theorem isMyProvider_unregistered_throws {Owner : Type} (nameOf : option Owner → string)
    (adds : list (ProviderInfo * option Owner)) (value : string) (owner : Owner) :
  value ∉ registeredValues adds →
  isMyProvider nameOf value owner (registered nameOf adds) = Throw TypeError.
Proof.
  intros Hnin. unfold isMyProvider.
  pose proof (get_registered nameOf adds value) as Hget. unfold get in Hget.
  by rewrite Hget, lastAdd_None.
Qed.

Lemma isMyProvider_unregistered_throws_witness :
  isMyProvider Fixture.nameOf "server" Fixture.HookA
    (registered Fixture.nameOf Fixture.history) = Throw TypeError.
Proof.
  apply isMyProvider_unregistered_throws.
  by_evaluation.
Defined.

Lemma registered_distinct {Owner : Type} (nameOf : option Owner → string)
    (adds : list (ProviderInfo * option Owner)) :
  NoDup (registeredValues adds) →
  map (registered nameOf adds) = (λ a, (info_value a.1, stored nameOf a)) <$> adds.
Proof.
  unfold registeredValues.
  induction adds as [|a adds IH] using rev_ind; [done|].
  rewrite fmap_snoc. intros (Hnd & Hnin & _)%NoDup_app.
  rewrite registered_snoc, fmap_snoc. unfold add. simpl.
  rewrite JsMapFacts.set_fresh; [by rewrite IH|].
  rewrite keys_registered, firstRegistered_elem_of.
  intros Hin. apply (Hnin _ Hin), list_elem_of_singleton. done.
Qed.

(** C4, as amended.  [toArray] gives one stored info for each distinct value,
    in the order in which the values were first registered: a later call for
    a value that is present replaces the info where it stands.  When all the
    calls register distinct values, this is the order of the calls. *)
Theorem toArray_first_registration_order {Owner : Type} (nameOf : option Owner → string)
    (adds : list (ProviderInfo * option Owner)) :
  info_value <$> toArray (registered nameOf adds) = firstRegistered (registeredValues adds) ∧
  toArray (registered nameOf adds) =
    omap (λ value, stored nameOf <$> lastAdd value adds)
         (firstRegistered (registeredValues adds)) ∧
  (NoDup (registeredValues adds) → toArray (registered nameOf adds) = stored nameOf <$> adds).
Proof.
  split_and!.
  - by rewrite values_of_toArray, keys_registered.
  - unfold toArray. rewrite JsMapFacts.values_lookup by apply keys_registered_NoDup.
    rewrite keys_registered. apply list_omap_ext.
    apply Forall_Forall2_diag, Forall_forall. intros value _.
    apply (get_registered nameOf adds value).
  - intros Hnd. unfold toArray, JsMap.values. rewrite registered_distinct by done.
    rewrite <- list_fmap_compose. done.
Qed.

Lemma toArray_first_registration_order_witness :
  toArray (registered Fixture.nameOf
             [(Fixture.protocol, Some Fixture.HookA); (Fixture.controller, Some Fixture.HookB)])
  = [stored Fixture.nameOf (Fixture.protocol, Some Fixture.HookA);
     stored Fixture.nameOf (Fixture.controller, Some Fixture.HookB)].
Proof.
  apply (toArray_first_registration_order Fixture.nameOf
           [(Fixture.protocol, Some Fixture.HookA); (Fixture.controller, Some Fixture.HookB)]).
  by_evaluation.
Defined.

(** C4, as stated, fails: in [Fixture.history] the third call registers
    ["protocol"] again, and its info stands first in [toArray], before the
    info of the second call. *)
Lemma toArray_overwrite_keeps_place :
  toArray (registered Fixture.nameOf Fixture.history) =
    [stored Fixture.nameOf (Fixture.protocol2, Some Fixture.PassportGenerateHook);
     stored Fixture.nameOf (Fixture.controller, Some Fixture.HookB)] ∧
  ¬ inRegistrationOrder Fixture.nameOf Fixture.history.
Proof.
  split; [reflexivity|].
  unfold inRegistrationOrder. vm_compute. discriminate.
Qed.

End RegistryFacts.

(** ** Strings *)

Module StringFacts.

#[local] Arguments String.append !_ _ / : simpl nomatch.

Lemma prefix_spec (k s : string) : String.prefix k s = true ↔ ∃ rest, s = k +:+ rest.
Proof.
  revert k. induction s as [|c' s IH]; intros [|c k]; simpl.
  - split; [intros _; by exists "" | done].
  - split; [done | by intros [? ?]].
  - split; [intros _; by exists (String c' s) | done].
  - destruct (ascii_dec c c') as [->|Hne].
    + rewrite IH. split; intros [rest Hrest]; exists rest; congruence.
    + split; [done | intros [rest [= ? _]]; done].
Qed.

Lemma includes_spec (s k : string) :
  includes s k = true ↔ ∃ before after, s = before +:+ k +:+ after.
Proof.
  induction s as [|c s IH]; cbn [includes]; rewrite orb_true_iff, prefix_spec.
  - split.
    + intros [[rest Hrest] | ?]; [by exists "", rest | done].
    + intros (before & after & H). left.
      destruct before; [by exists after | done].
  - rewrite IH. split.
    + intros [[rest Hrest] | (before & after & ->)].
      * by exists "", rest.
      * by exists (String c before), after.
    + intros (before & after & H). destruct before as [|c' before]; simpl in H.
      * left. by exists after.
      * right. exists before, after. congruence.
Qed.

(** The test of [source] is containment once both strings are in lower
    case. *)
Lemma includes_toLowerCase (toLowerCase : string → string) (s k : string) :
  includes (toLowerCase s) (toLowerCase k) = true ↔ containsIgnoringCase toLowerCase s k.
Proof. apply includes_spec. Qed.

(** On text whose letters are lower-cased one by one, as ASCII text is, this
    is the occurrence of a part that equals the keyword up to case. *)
Lemma toLowerCase_append (s1 s2 : string) :
  Fixture.toLowerCase (s1 +:+ s2) = Fixture.toLowerCase s1 +:+ Fixture.toLowerCase s2.
Proof. induction s1 as [|c s1 IH]; simpl; [done | by rewrite IH]. Qed.

Lemma toLowerCase_split (s x y : string) :
  Fixture.toLowerCase s = x +:+ y →
  ∃ s1 s2, s = s1 +:+ s2 ∧ Fixture.toLowerCase s1 = x ∧ Fixture.toLowerCase s2 = y.
Proof.
  revert s. induction x as [|c x IH]; intros s H; simpl in H.
  - by exists "", s.
  - destruct s as [|c' s]; [done|]. simpl in H. injection H as Hc Hs.
    destruct (IH _ Hs) as (s1 & s2 & -> & <- & <-).
    exists (String c' s1), s2. simpl. by rewrite Hc.
Qed.

Lemma containsIgnoringCase_ascii (s k : string) :
  containsIgnoringCase Fixture.toLowerCase s k ↔
  ∃ before mid after,
    s = before +:+ mid +:+ after ∧ Fixture.toLowerCase mid = Fixture.toLowerCase k.
Proof.
  unfold containsIgnoringCase. split.
  - intros (x & y & H).
    apply toLowerCase_split in H as (s1 & s' & -> & <- & H).
    apply toLowerCase_split in H as (s2 & s3 & -> & Hmid & <-).
    by exists s1, s2, s3.
  - intros (s1 & s2 & s3 & -> & Hmid).
    exists (Fixture.toLowerCase s1), (Fixture.toLowerCase s3).
    by rewrite !toLowerCase_append, Hmid.
Qed.

End StringFacts.

(** ** The passport generate hook *)

Module HookFacts.
Import PassportGenerateHook.

Ltac run_hook :=
  unfold onGeneratePrompt, onGenerateExec, getPassportPackageVersion, source,
    thisPackages, setPackages, passportClient_getPackages,
    projectPackageJson_addDependency, providersInfoService_isMyProvider,
    mbind, mret, M_bind, M_ret;
  simpl.

Section prompt.
Context (getPackages : nat → Result (list Package))
    (toLowerCase : string → string).

(** The question the prompt phase contributes once the index has answered
    with [pkgs]. *)
Lemma onGeneratePrompt_ok (initialOption : Obj) (w : World) (pkgs : list Package) :
  getPackages (fetches w) = Ok pkgs →
  onGeneratePrompt getPackages toLowerCase initialOption w =
    (Ok [ {| q_type := "autocomplete"; q_name := "passportPackage";
             q_message := "Which passport package ?";
             q_when := when; q_source := source toLowerCase (toChoice <$> pkgs) |} ],
     {| packages := Some pkgs; providers := providers w;
        fetches := S (fetches w); dependencies := dependencies w |}).
Proof. intros H. run_hook. by rewrite H. Qed.

Lemma onGeneratePrompt_rejected (initialOption : Obj) (w : World) (e : Error) :
  getPackages (fetches w) = Throw e →
  onGeneratePrompt getPackages toLowerCase initialOption w =
    (Throw e,
     {| packages := packages w; providers := providers w;
        fetches := S (fetches w); dependencies := dependencies w |}).
Proof. intros H. run_hook. by rewrite H. Qed.

Lemma when_spec (state : Obj) : when state = true ↔ prop state "type" = VStr "protocol".
Proof.
  unfold when, arrayIncludes. rewrite bool_decide_eq_true.
  by rewrite list_elem_of_singleton.
Qed.

Lemma source_spec (choices : list Choice) (state : Obj) (w : World) :
  source toLowerCase choices state None w = (Ok choices, w) ∧
  source toLowerCase choices state (Some "") w = (Ok choices, w) ∧
  ∀ k (dec : ∀ item, Decision (containsIgnoringCase toLowerCase (choice_name item) k)),
    k ≠ "" →
    source toLowerCase choices state (Some k) w =
      (Ok (filter (λ item, containsIgnoringCase toLowerCase (choice_name item) k) choices),
       w).
Proof.
  split_and!; [done..|]. intros k dec Hk. unfold source. simpl.
  destruct (String.eqb_spec k "") as [->|_]; [done|]. simpl.
  unfold mret, M_ret. do 2 f_equal.
  apply list_filter_iff. intros item. apply StringFacts.includes_toLowerCase.
Qed.

End prompt.

(** C6.  The prompt phase contributes one question, [passportPackage]; its
    [when] is true exactly on the states whose [type] is ["protocol"], so the
    form rendered for any other type leaves the question out. *)
Theorem passportPackage_question_when (getPackages : nat → Result (list Package))
    (toLowerCase : string → string)
    (initialOption : Obj) (w : World) (pkgs : list Package) :
  getPackages (fetches w) = Ok pkgs →
  ∃ q, (onGeneratePrompt getPackages toLowerCase initialOption w).1 = Ok [q] ∧
       q_name q = "passportPackage" ∧
       ∀ state : Obj,
         (q_when q state = true ↔ prop state "type" = VStr "protocol") ∧
         (prop state "type" = VStr "protocol" → renderedForm [q] state = [q]) ∧
         (prop state "type" ≠ VStr "protocol" → renderedForm [q] state = []).
Proof.
  intros Hfetch. rewrite (onGeneratePrompt_ok _ _ _ _ _ Hfetch). simpl.
  eexists. split; [done|]. split; [done|]. simpl. intros state.
  unfold renderedForm. rewrite filter_cons, filter_nil. simpl.
  split_and!.
  - apply when_spec.
  - intros Htype. by rewrite decide_True by (by apply when_spec).
  - intros Htype. by rewrite decide_False by (by rewrite when_spec).
Qed.

Lemma passportPackage_question_when_witness :
  ∃ q, (onGeneratePrompt Fixture.getPackages Fixture.toLowerCase ∅ Fixture.started).1
         = Ok [q] ∧
       q_when q {[ "type" := VStr "protocol" ]} = true ∧
       renderedForm [q] {[ "type" := VStr "controller" ]} = [].
Proof.
  destruct (passportPackage_question_when Fixture.getPackages Fixture.toLowerCase ∅
              Fixture.started Fixture.index eq_refl) as (q & Hq & _ & Hstate).
  exists q. split_and!.
  - exact Hq.
  - by apply (Hstate {[ "type" := VStr "protocol" ]}).
  - by apply (Hstate {[ "type" := VStr "controller" ]}).
Defined.

(** C7.  The list of packages is fetched once, by the prompt phase; the
    [source] of its question answers from that list and leaves the world as
    it is (no further fetch): the whole list for a missing or empty keyword,
    and for any other keyword exactly the entries, in order, whose display
    name contains the keyword when the case of letters is ignored (in lower
    case, as [toLowerCase] of the language gives it, the name holds the
    keyword). *)
Theorem source_filters_fetched_list (getPackages : nat → Result (list Package))
    (toLowerCase : string → string)
    (initialOption : Obj) (w : World) (pkgs : list Package) :
  getPackages (fetches w) = Ok pkgs →
  ∃ q w', onGeneratePrompt getPackages toLowerCase initialOption w = (Ok [q], w') ∧
    fetches w' = S (fetches w) ∧
    ∀ (state : Obj) (w'' : World),
      q_source q state None w'' = (Ok (toChoice <$> pkgs), w'') ∧
      q_source q state (Some "") w'' = (Ok (toChoice <$> pkgs), w'') ∧
      ∀ k (dec : ∀ item, Decision (containsIgnoringCase toLowerCase (choice_name item) k)),
        k ≠ "" →
        q_source q state (Some k) w'' =
          (Ok (filter (λ item, containsIgnoringCase toLowerCase (choice_name item) k)
                      (toChoice <$> pkgs)), w'').
Proof.
  intros Hfetch. rewrite (onGeneratePrompt_ok _ _ _ _ _ Hfetch).
  eexists _, _. split; [done|]. split; [done|]. simpl.
  intros state w''. apply source_spec.
Qed.

Lemma source_filters_fetched_list_witness :
  ∃ q w',
    onGeneratePrompt Fixture.getPackages Fixture.toLowerCase ∅ Fixture.started
      = (Ok [q], w') ∧
    fetches w' = 1 ∧
    q_source q ∅ None w' = (Ok (toChoice <$> Fixture.index), w') ∧
    q_source q ∅ (Some "JWT") w' = (Ok [toChoice Fixture.passportJwt], w').
Proof.
  destruct (source_filters_fetched_list Fixture.getPackages Fixture.toLowerCase ∅
              Fixture.started Fixture.index eq_refl) as (q & w' & Hq & Hn & Hsource).
  exists q, w'. split_and!; [done | done | apply Hsource |].
  destruct (Hsource ∅ w') as (_ & _ & Hfilter).
  pose (dec := λ item : Choice,
          decide_rel (=) (includes (Fixture.toLowerCase (choice_name item))
                                   (Fixture.toLowerCase "JWT")) true).
  assert (∀ item,
            Decision (containsIgnoringCase Fixture.toLowerCase (choice_name item) "JWT"))
    as dec'.
  { intros item. destruct (dec item) as [Hyes|Hno].
    - left. by apply StringFacts.includes_toLowerCase.
    - right. by rewrite <- StringFacts.includes_toLowerCase. }
  rewrite (Hfilter "JWT" dec') by done. do 2 f_equal.
  erewrite (list_filter_iff _ (λ item,
              includes (Fixture.toLowerCase (choice_name item))
                       (Fixture.toLowerCase "JWT") = true)).
  - reflexivity.
  - intros item. symmetry. apply StringFacts.includes_toLowerCase.
Defined.

Section exec.
Context {Owner : Type} (nameOf : option Owner → string) (Hook : Owner).
Context (paramCase : string → string) (TEMPLATE_DIR : string)
    (numberToString : Z → string).

#[local] Abbreviation onGenerateExec :=
  (onGenerateExec nameOf Hook paramCase TEMPLATE_DIR numberToString).

Lemma isMyProvider_get (value : string) (owner : Owner) (this : ProvidersInfoService.t)
    (entry : ProviderInfo) :
  ProvidersInfoService.get value this = Some entry →
  ProvidersInfoService.isMyProvider nameOf value owner this =
    Ok (bool_decide (info_owner entry = Some (nameOf (Some owner)))).
Proof.
  unfold ProvidersInfoService.get, ProvidersInfoService.isMyProvider. by intros ->.
Qed.

Lemma find_first (pkgs before after : list Package) (details : Package) (pp : string) :
  pkgs = before ++ details :: after →
  pkg_name details = pp →
  pp ∉ pkg_name <$> before →
  List.find (λ pkg, String.eqb (pkg_name pkg) pp) pkgs = Some details.
Proof.
  intros -> Hname. induction before as [|pkg before IH]; csimpl; intros Hnin.
  - by rewrite (proj2 (String.eqb_eq _ _) Hname).
  - apply not_elem_of_cons in Hnin as [Hne Hnin].
    destruct (String.eqb_spec (pkg_name pkg) pp) as [Heq|_]; [by destruct Hne|].
    by apply IH.
Qed.

Lemma find_absent (pkgs : list Package) (pp : string) :
  pp ∉ pkg_name <$> pkgs →
  List.find (λ pkg, String.eqb (pkg_name pkg) pp) pkgs = None.
Proof.
  induction pkgs as [|pkg pkgs IH]; csimpl; [done|].
  intros [Hne Hnin]%not_elem_of_cons.
  destruct (String.eqb_spec (pkg_name pkg) pp) as [Heq|_]; [by destruct Hne|].
  by apply IH.
Qed.

Lemma getPassportPackageVersion_unset (pp : string) (w : World) :
  packages w = None → getPassportPackageVersion pp w = (Throw TypeError, w).
Proof. intros H. run_hook. by rewrite H. Qed.

Lemma getPassportPackageVersion_set (pp : string) (w : World) (pkgs : list Package) :
  packages w = Some pkgs →
  getPassportPackageVersion pp w =
    (Ok (match List.find (λ pkg, String.eqb (pkg_name pkg) pp) pkgs with
         | Some details => pkg_dist_tags details ≫= latest
         | None => None
         end), w).
Proof. intros H. run_hook. by rewrite H. Qed.

Lemma onGenerateExec_not_mine (ctx : IPassportGenerationOptions) (w : World) :
  ProvidersInfoService.isMyProvider nameOf (ctx_type ctx) Hook (providers w) = Ok false →
  onGenerateExec ctx w = (Ok [], w).
Proof. intros H. run_hook. by rewrite H. Qed.

Lemma onGenerateExec_unset (ctx : IPassportGenerationOptions) (w : World) :
  ProvidersInfoService.isMyProvider nameOf (ctx_type ctx) Hook (providers w) = Ok true →
  packages w = None →
  onGenerateExec ctx w = (Throw TypeError, w).
Proof. intros H Hp. run_hook. by rewrite H, Hp. Qed.

Lemma onGenerateExec_mine (ctx : IPassportGenerationOptions) (w : World)
    (pkgs : list Package) :
  ProvidersInfoService.isMyProvider nameOf (ctx_type ctx) Hook (providers w) = Ok true →
  packages w = Some pkgs →
  ∃ t version,
    getPassportPackageVersion (ctx_passportPackage ctx) w = (Ok version, w) ∧
    onGenerateExec ctx w =
      (Ok [t],
       {| packages := packages w; providers := providers w; fetches := fetches w;
          dependencies := dependencies w ++ [(ctx_passportPackage ctx, version)] |}) ∧
    ∀ srcRenderService,
      render_template (task t srcRenderService) =
        getTemplate TEMPLATE_DIR srcRenderService (ctx_passportPackage ctx) ∧
      render_templateDir (task t srcRenderService) = TEMPLATE_DIR.
Proof.
  intros H Hp. eexists _, _. split; [by apply getPassportPackageVersion_set|].
  destruct w as [cache registry n deps]. simpl in *. subst cache.
  run_hook. rewrite H. simpl. split; [reflexivity|]. done.
Qed.

End exec.

(** C5, as amended.  For a context whose type is registered under the name of
    another owner, [onGenerateExec] gives no task and leaves the world as it
    is (no dependency is added).  For a context whose type is registered under
    the name of the hook, and with the [packages] field set by the prompt
    phase, it gives exactly one task and adds the passport package to the
    dependencies, with the version read from the cached list. *)
Theorem onGenerateExec_dispatch {Owner : Type} (nameOf : option Owner → string)
    (Hook : Owner) (paramCase : string → string) (TEMPLATE_DIR : string)
    (numberToString : Z → string)
    (ctx : IPassportGenerationOptions) (w : World) (entry : ProviderInfo) :
  ProvidersInfoService.get (ctx_type ctx) (providers w) = Some entry →
  (info_owner entry ≠ Some (nameOf (Some Hook)) →
     onGenerateExec nameOf Hook paramCase TEMPLATE_DIR numberToString ctx w = (Ok [], w)) ∧
  (info_owner entry = Some (nameOf (Some Hook)) →
     ∀ pkgs, packages w = Some pkgs →
     ∃ t version,
       getPassportPackageVersion (ctx_passportPackage ctx) w = (Ok version, w) ∧
       onGenerateExec nameOf Hook paramCase TEMPLATE_DIR numberToString ctx w =
         (Ok [t],
          {| packages := packages w; providers := providers w; fetches := fetches w;
             dependencies := dependencies w ++ [(ctx_passportPackage ctx, version)] |})).
Proof.
  intros Hget. pose proof (isMyProvider_get nameOf _ Hook _ _ Hget) as Hmine. split.
  - intros Hother. apply onGenerateExec_not_mine.
    by rewrite Hmine, bool_decide_eq_false_2.
  - intros Hown pkgs Hpkgs.
    rewrite bool_decide_eq_true_2 in Hmine by done.
    destruct (onGenerateExec_mine nameOf Hook paramCase TEMPLATE_DIR numberToString ctx w pkgs Hmine Hpkgs)
      as (t & version & Hversion & Hexec & _).
    by exists t, version.
Qed.

Lemma onGenerateExec_dispatch_witness :
  onGenerateExec Fixture.nameOf Fixture.PassportGenerateHook Fixture.paramCase
    Fixture.TEMPLATE_DIR Fixture.numberToString Fixture.controllerCtx Fixture.threeHooks
    = (Ok [], Fixture.threeHooks) ∧
  ∃ t,
    onGenerateExec Fixture.nameOf Fixture.PassportGenerateHook Fixture.paramCase
      Fixture.TEMPLATE_DIR Fixture.numberToString Fixture.protocolCtx Fixture.threeHooks
    = (Ok [t],
       {| packages := packages Fixture.threeHooks;
          providers := providers Fixture.threeHooks;
          fetches := 1; dependencies := [("passport-local", Some "1.0.0")] |}).
Proof.
  split.
  - apply (onGenerateExec_dispatch Fixture.nameOf Fixture.PassportGenerateHook
             Fixture.paramCase Fixture.TEMPLATE_DIR Fixture.numberToString Fixture.controllerCtx
             Fixture.threeHooks
             (ProvidersInfoService.stored Fixture.nameOf
                (Fixture.controller, Some Fixture.HookA)) eq_refl).
    discriminate.
  - destruct (onGenerateExec_dispatch Fixture.nameOf Fixture.PassportGenerateHook
                Fixture.paramCase Fixture.TEMPLATE_DIR Fixture.numberToString Fixture.protocolCtx
                Fixture.threeHooks
                (ProvidersInfoService.stored Fixture.nameOf
                   (Fixture.protocol, Some Fixture.PassportGenerateHook)) eq_refl)
      as [_ Hown].
    destruct (Hown eq_refl Fixture.index eq_refl) as (t & version & Hversion & Hexec).
    exists t. rewrite Hexec. compute in Hversion. injection Hversion as <-.
    reflexivity.
Defined.

(** C5, as stated, fails: right after the hook is constructed, the type
    ["protocol"] is owned by the hook, and [onGenerateExec] throws on the
    missing [packages]: no task comes back and no dependency is added. *)
Lemma onGenerateExec_throws_before_prompt :
  onGenerateExec Fixture.nameOf Fixture.PassportGenerateHook Fixture.paramCase
    Fixture.TEMPLATE_DIR Fixture.numberToString Fixture.protocolCtx Fixture.started
    = (Throw TypeError, Fixture.started) ∧
  ¬ dispatchesOnOwner Fixture.nameOf Fixture.PassportGenerateHook Fixture.paramCase
      Fixture.TEMPLATE_DIR Fixture.numberToString Fixture.protocolCtx Fixture.started.
Proof.
  assert (onGenerateExec Fixture.nameOf Fixture.PassportGenerateHook Fixture.paramCase
            Fixture.TEMPLATE_DIR Fixture.numberToString Fixture.protocolCtx Fixture.started
          = (Throw TypeError, Fixture.started)) as Hthrow by (by apply onGenerateExec_unset).
  split; [exact Hthrow|].
  intros Hclaim. unfold dispatchesOnOwner in Hclaim. rewrite Hthrow in Hclaim.
  destruct (Hclaim _ eq_refl) as [_ Hown].
  destruct (Hown eq_refl) as (t & Ht & _). discriminate Ht.
Qed.

(** C8, as amended.  The context mapping keeps every property of the context
    other than [protocolName] with its value and adds nothing else; it sets
    [protocolName] to the param-cased [name], replacing a [protocolName] the
    context brought; no key of the context is missing from the result. *)
Theorem mapOptions_frame (paramCase : string → string) (ctx : IPassportGenerationOptions) :
  (∀ k, k ≠ "protocolName" → mapOptions paramCase ctx !! k = toObject ctx !! k) ∧
  mapOptions paramCase ctx !! "protocolName" = Some (VStr (paramCase (ctx_name ctx))) ∧
  dom (mapOptions paramCase ctx) = dom (toObject ctx) ∪ {["protocolName"]}.
Proof.
  assert (toObject ctx !! "passportPackage" = Some (VStr (ctx_passportPackage ctx))) as Hpp.
  { unfold toObject. by rewrite lookup_insert_eq. }
  unfold mapOptions. rewrite (insert_id _ "passportPackage").
  - split_and!.
    + intros k Hk. by rewrite lookup_insert_ne.
    + by rewrite lookup_insert_eq.
    + by rewrite dom_insert_L, (comm_L (∪)).
  - by rewrite lookup_insert_ne.
Qed.

Lemma mapOptions_frame_witness :
  mapOptions Fixture.paramCase Fixture.protocolCtx !! "type" = Some (VStr "protocol") ∧
  mapOptions Fixture.paramCase Fixture.protocolCtx !! "passportPackage"
    = Some (VStr "passport-local") ∧
  mapOptions Fixture.paramCase Fixture.protocolCtx !! "protocolName"
    = Some (VStr "local-login").
Proof.
  destruct (mapOptions_frame Fixture.paramCase Fixture.protocolCtx) as (Hframe & Hname & _).
  split_and!.
  - by rewrite (Hframe "type").
  - by rewrite (Hframe "passportPackage").
  - exact Hname.
Defined.

(** C8, as stated, fails: the [protocolName] that [Fixture.renamedCtx] brings
    is not the one the mapped context has. *)
Lemma mapOptions_replaces_protocolName :
  toObject Fixture.renamedCtx !! "protocolName" = Some (VStr "LocalStrategy") ∧
  mapOptions Fixture.paramCase Fixture.renamedCtx !! "protocolName"
    = Some (VStr "local-login") ∧
  ¬ preservesEveryPair Fixture.paramCase Fixture.renamedCtx.
Proof.
  assert (toObject Fixture.renamedCtx !! "protocolName" = Some (VStr "LocalStrategy")) as Hin.
  { unfold toObject. rewrite !lookup_insert_ne by done. apply lookup_singleton_eq. }
  assert (mapOptions Fixture.paramCase Fixture.renamedCtx !! "protocolName"
          = Some (VStr "local-login")) as Hout.
  { unfold mapOptions. rewrite lookup_insert_ne by done. by rewrite lookup_insert_eq. }
  split_and!; [done..|].
  intros Hclaim. specialize (Hclaim _ _ Hin). rewrite Hout in Hclaim. discriminate Hclaim.
Qed.

(** C9.  The version of the dependency is read from the [packages] field of
    the hook.  While the field is unset, as it is after the constructor, the
    lookup throws, and so does [onGenerateExec] for a context whose type the
    hook owns, such as ["protocol"] on a hook just constructed.  Once the
    prompt phase has run, the field holds the fetched list, and the lookup
    gives the [latest] dist-tag of the first package of that name, or
    [undefined] when no package of the list has that name; [onGenerateExec]
    for a context the hook owns then returns its task and records the passport
    package as a dependency with the version that lookup gives. *)
Theorem version_read_from_cached_packages {Owner : Type} (nameOf : option Owner → string)
    (Hook : Owner) (paramCase : string → string) (TEMPLATE_DIR : string)
    (numberToString : Z → string)
    (getPackages : nat → Result (list Package))
    (toLowerCase : string → string) :
  (∀ w pp, packages w = None → getPassportPackageVersion pp w = (Throw TypeError, w)) ∧
  (∀ w ctx entry,
     ProvidersInfoService.get (ctx_type ctx) (providers w) = Some entry →
     info_owner entry = Some (nameOf (Some Hook)) →
     packages w = None →
     onGenerateExec nameOf Hook paramCase TEMPLATE_DIR numberToString ctx w
       = (Throw TypeError, w)) ∧
  (∀ service w0 ctx,
     ctx_type ctx = "protocol" →
     let w := constructor nameOf Hook service w0 in
     packages w = None ∧
     onGenerateExec nameOf Hook paramCase TEMPLATE_DIR numberToString ctx w
       = (Throw TypeError, w)) ∧
  (∀ w initialOption pkgs pp,
     getPackages (fetches w) = Ok pkgs →
     let w' := (onGeneratePrompt getPackages toLowerCase initialOption w).2 in
     packages w' = Some pkgs ∧
     (∀ before details after,
        pkgs = before ++ details :: after →
        pkg_name details = pp →
        pp ∉ pkg_name <$> before →
        getPassportPackageVersion pp w' = (Ok (pkg_dist_tags details ≫= latest), w')) ∧
     (pp ∉ pkg_name <$> pkgs → getPassportPackageVersion pp w' = (Ok None, w')) ∧
     (∀ ctx entry,
        ctx_passportPackage ctx = pp →
        ProvidersInfoService.get (ctx_type ctx) (providers w) = Some entry →
        info_owner entry = Some (nameOf (Some Hook)) →
        ∃ t version,
          getPassportPackageVersion pp w' = (Ok version, w') ∧
          onGenerateExec nameOf Hook paramCase TEMPLATE_DIR numberToString ctx w' =
            (Ok [t],
             {| packages := Some pkgs; providers := providers w;
                fetches := S (fetches w);
                dependencies := dependencies w ++ [(pp, version)] |}))).
Proof.
  split_and!.
  - intros w pp. apply getPassportPackageVersion_unset.
  - intros w ctx entry Hget Hown Hunset. apply onGenerateExec_unset; [|done].
    by rewrite (isMyProvider_get nameOf _ Hook _ _ Hget), bool_decide_eq_true_2.
  - intros service w0 ctx Htype w. split; [done|].
    apply onGenerateExec_unset; [|done].
    rewrite Htype. unfold ProvidersInfoService.isMyProvider. subst w. simpl.
    rewrite JsMapFacts.get_set_eq. simpl. by rewrite bool_decide_eq_true_2.
  - intros w initialOption pkgs pp Hfetch.
    rewrite (onGeneratePrompt_ok _ _ _ _ _ Hfetch). simpl. split_and!; [done| | |].
    + intros before details after Hpkgs Hname Hfirst.
      erewrite getPassportPackageVersion_set by done.
      by rewrite (find_first _ _ _ _ _ Hpkgs Hname Hfirst).
    + intros Habsent. erewrite getPassportPackageVersion_set by done.
      by rewrite find_absent.
    + intros ctx entry <- Hget Hown.
      pose proof (isMyProvider_get nameOf _ Hook _ _ Hget) as Hmine.
      rewrite bool_decide_eq_true_2 in Hmine by done.
      destruct (onGenerateExec_mine nameOf Hook paramCase TEMPLATE_DIR numberToString ctx
                  {| packages := Some pkgs; providers := providers w;
                     fetches := S (fetches w); dependencies := dependencies w |}
                  pkgs Hmine eq_refl) as (t & version & Hversion & Hexec & _).
      by exists t, version.
Qed.

Lemma version_read_from_cached_packages_witness :
  onGenerateExec Fixture.nameOf Fixture.PassportGenerateHook Fixture.paramCase
    Fixture.TEMPLATE_DIR Fixture.numberToString Fixture.protocolCtx Fixture.started
    = (Throw TypeError, Fixture.started) ∧
  getPassportPackageVersion "passport-local" Fixture.prompted
    = (Ok (Some "1.0.0"), Fixture.prompted) ∧
  getPassportPackageVersion "passport-jwt" Fixture.prompted = (Ok None, Fixture.prompted) ∧
  getPassportPackageVersion "passport-oauth" Fixture.prompted = (Ok None, Fixture.prompted) ∧
  ∃ t,
    onGenerateExec Fixture.nameOf Fixture.PassportGenerateHook Fixture.paramCase
      Fixture.TEMPLATE_DIR Fixture.numberToString Fixture.protocolCtx Fixture.prompted
    = (Ok [t],
       {| packages := Some Fixture.index; providers := providers Fixture.started;
          fetches := 1; dependencies := [("passport-local", Some "1.0.0")] |}).
Proof.
  destruct (version_read_from_cached_packages Fixture.nameOf Fixture.PassportGenerateHook
              Fixture.paramCase Fixture.TEMPLATE_DIR Fixture.numberToString
              Fixture.getPackages Fixture.toLowerCase)
    as (_ & _ & Hfresh & Hprompted).
  destruct (Hprompted Fixture.started ∅ Fixture.index "passport-local" eq_refl)
    as (_ & Hlocal & _ & Hexec).
  destruct (Hprompted Fixture.started ∅ Fixture.index "passport-jwt" eq_refl)
    as (_ & Hjwt & _).
  destruct (Hprompted Fixture.started ∅ Fixture.index "passport-oauth" eq_refl)
    as (_ & _ & Hnone & _).
  assert (getPassportPackageVersion "passport-local" Fixture.prompted
          = (Ok (Some "1.0.0"), Fixture.prompted)) as Hfound.
  { apply (Hlocal [] Fixture.passportLocal [Fixture.passportJwt]); [done..|].
    by_evaluation. }
  split_and!.
  - by apply (Hfresh ProvidersInfoService.create Fixture.emptyWorld Fixture.protocolCtx).
  - exact Hfound.
  - apply (Hjwt [Fixture.passportLocal] Fixture.passportJwt []); [done..|].
    by_evaluation.
  - apply Hnone. by_evaluation.
  - destruct (Hexec Fixture.protocolCtx
                (ProvidersInfoService.stored Fixture.nameOf
                   (Fixture.protocol, Some Fixture.PassportGenerateHook))
                eq_refl eq_refl eq_refl) as (t & version & Hversion & Hrun).
    exists t. change (getPassportPackageVersion "passport-local" Fixture.prompted
                      = (Ok version, Fixture.prompted)) in Hversion.
    rewrite Hfound in Hversion. injection Hversion as <-. exact Hrun.
Defined.

(** C10.  [getTemplate] gives the template of the package when
    [templateExists] reports it, and the generic template otherwise; so the
    task of [onGenerateExec] renders, from [TEMPLATE_DIR], either the generic
    template or a template that [templateExists] reports. *)
Theorem getTemplate_falls_back {Owner : Type} (nameOf : option Owner → string)
    (Hook : Owner) (paramCase : string → string) (TEMPLATE_DIR : string)
    (numberToString : Z → string) :
  (∀ srcRenderService passportPackage,
     templateExists srcRenderService (passportPackage +:+ ".protocol.hbs") TEMPLATE_DIR = true →
     getTemplate TEMPLATE_DIR srcRenderService passportPackage
       = passportPackage +:+ ".protocol.hbs") ∧
  (∀ srcRenderService passportPackage,
     templateExists srcRenderService (passportPackage +:+ ".protocol.hbs") TEMPLATE_DIR = false →
     getTemplate TEMPLATE_DIR srcRenderService passportPackage = "generic.protocol.hbs") ∧
  (∀ w ctx entry pkgs,
     ProvidersInfoService.get (ctx_type ctx) (providers w) = Some entry →
     info_owner entry = Some (nameOf (Some Hook)) →
     packages w = Some pkgs →
     ∃ t, (onGenerateExec nameOf Hook paramCase TEMPLATE_DIR numberToString ctx w).1 = Ok [t] ∧
       ∀ srcRenderService,
         let call := task t srcRenderService in
         render_template call
           = getTemplate TEMPLATE_DIR srcRenderService (ctx_passportPackage ctx) ∧
         render_templateDir call = TEMPLATE_DIR ∧
         (render_template call = "generic.protocol.hbs" ∨
          (render_template call = ctx_passportPackage ctx +:+ ".protocol.hbs" ∧
           templateExists srcRenderService (render_template call) TEMPLATE_DIR = true))).
Proof.
  split_and!.
  - intros srv pp Hyes. unfold getTemplate. simpl. by rewrite Hyes.
  - intros srv pp Hno. unfold getTemplate. simpl. by rewrite Hno.
  - intros w ctx entry pkgs Hget Hown Hpkgs.
    pose proof (isMyProvider_get nameOf _ Hook _ _ Hget) as Hmine.
    rewrite bool_decide_eq_true_2 in Hmine by done.
    destruct (onGenerateExec_mine nameOf Hook paramCase TEMPLATE_DIR numberToString ctx w pkgs Hmine Hpkgs)
      as (t & version & _ & Hexec & Htask).
    exists t. rewrite Hexec. split; [done|]. intros srv call.
    destruct (Htask srv) as [Htemplate Hdir]. subst call.
    split_and!; [done..|]. rewrite Htemplate. unfold getTemplate. simpl.
    destruct (templateExists srv _ TEMPLATE_DIR) eqn:Hexists; [right | left]; done.
Qed.

Lemma getTemplate_falls_back_witness :
  getTemplate Fixture.TEMPLATE_DIR Fixture.renderer "passport-local"
    = "passport-local.protocol.hbs" ∧
  getTemplate Fixture.TEMPLATE_DIR Fixture.renderer "passport-jwt" = "generic.protocol.hbs" ∧
  ∃ t, (onGenerateExec Fixture.nameOf Fixture.PassportGenerateHook Fixture.paramCase
          Fixture.TEMPLATE_DIR Fixture.numberToString Fixture.protocolCtx Fixture.prompted).1 = Ok [t] ∧
       render_template (task t Fixture.renderer) = "passport-local.protocol.hbs".
Proof.
  destruct (getTemplate_falls_back Fixture.nameOf Fixture.PassportGenerateHook
              Fixture.paramCase Fixture.TEMPLATE_DIR Fixture.numberToString) as (Hyes & Hno & Htask).
  split_and!.
  - by apply Hyes.
  - by apply Hno.
  - destruct (Htask Fixture.prompted Fixture.protocolCtx
                (ProvidersInfoService.stored Fixture.nameOf
                   (Fixture.protocol, Some Fixture.PassportGenerateHook))
                Fixture.index eq_refl eq_refl eq_refl) as (t & Ht & Hcall).
    exists t. split; [exact Ht|].
    destruct (Hcall Fixture.renderer) as (-> & _). by apply Hyes.
Defined.

End HookFacts.

(** * Further properties *)

(** ** The insertion-ordered map, continued *)

Module JsMapMore.
Section facts.
Context {V : Type}.
Implicit Types (m : list (string * V)) (k : string) (v : V).

Lemma set_set m k v v' : JsMap.set k v (JsMap.set k v' m) = JsMap.set k v m.
Proof.
  induction m as [|[k0 v0] m IH]; simpl.
  - by rewrite decide_True.
  - destruct (decide (k0 = k)) as [->|Hne]; simpl.
    + by rewrite decide_True.
    + rewrite decide_False by done. by rewrite IH.
Qed.

Lemma length_set m k v :
  length (JsMap.set k v m) =
  if JsMap.get k m is Some _ then length m else S (length m).
Proof.
  induction m as [|[k0 v0] m IH]; simpl; [done|].
  destruct (decide (k0 = k)) as [->|Hne]; simpl; [done|].
  rewrite IH. by destruct (JsMap.get k m).
Qed.

Lemma get_elem_of m k v : JsMap.get k m = Some v → (k, v) ∈ m.
Proof.
  induction m as [|[k0 v0] m IH]; simpl; [done|].
  destruct (decide (k0 = k)) as [->|Hne].
  - intros [= ->]. apply list_elem_of_here.
  - intros H. apply list_elem_of_further. by apply IH.
Qed.

Lemma elem_of_get m k v : NoDup (JsMap.keys m) → (k, v) ∈ m → JsMap.get k m = Some v.
Proof.
  unfold JsMap.keys. induction m as [|[k0 v0] m IH]; csimpl.
  - by intros _ ?%elem_of_nil.
  - intros [Hnin Hnd]%NoDup_cons [[= -> ->]|Hin]%elem_of_cons.
    + by rewrite decide_True.
    + rewrite decide_False; [by apply IH|].
      intros ->. apply Hnin, list_elem_of_fmap. by exists (k, v).
Qed.

End facts.
End JsMapMore.

(** ** The provider registry, on any state *)

Module RegistryMore.
Import ProvidersInfoService.

(** X1.  On any state of the registry, [get] after [add] gives the info just
    added, with the name of the owner; for every other value [get] and the
    ownership check answer as before. *)
Theorem add_then_get {Owner : Type} (nameOf : option Owner → string)
    (info : ProviderInfo) (owner : option Owner) (this : t) (value : string) :
  get (info_value info) (add nameOf info owner this) = Some (withOwner nameOf info owner) ∧
  (value ≠ info_value info →
     get value (add nameOf info owner this) = get value this ∧
     ∀ o, isMyProvider nameOf value o (add nameOf info owner this)
          = isMyProvider nameOf value o this).
Proof.
  unfold get, isMyProvider, add. simpl. split.
  - apply JsMapFacts.get_set_eq.
  - intros Hne. by rewrite JsMapFacts.get_set_ne.
Qed.

Lemma add_then_get_witness :
  get "protocol" (add Fixture.nameOf Fixture.protocol2 (Some Fixture.HookB)
                    (registered Fixture.nameOf Fixture.history))
    = Some (withOwner Fixture.nameOf Fixture.protocol2 (Some Fixture.HookB)) ∧
  get "controller" (add Fixture.nameOf Fixture.protocol2 (Some Fixture.HookB)
                      (registered Fixture.nameOf Fixture.history))
    = get "controller" (registered Fixture.nameOf Fixture.history).
Proof.
  destruct (add_then_get Fixture.nameOf Fixture.protocol2 (Some Fixture.HookB)
              (registered Fixture.nameOf Fixture.history) "controller") as [Hnew Hother].
  split; [exact Hnew|]. by apply Hother.
Defined.

(** X2.  On any state, [add] hands the value over to the owner of the call:
    right after it the ownership check does not throw, and it is true for an
    asking owner exactly when its name is the name of the owner of the call,
    whoever held the value before. *)
Theorem add_hands_over {Owner : Type} (nameOf : option Owner → string)
    (info : ProviderInfo) (owner : option Owner) (this : t) (o : Owner) :
  (nameOf (Some o) = nameOf owner →
     isMyProvider nameOf (info_value info) o (add nameOf info owner this) = Ok true) ∧
  (nameOf (Some o) ≠ nameOf owner →
     isMyProvider nameOf (info_value info) o (add nameOf info owner this) = Ok false).
Proof.
  unfold isMyProvider, add. simpl. rewrite JsMapFacts.get_set_eq. simpl. split.
  - intros ->. by rewrite bool_decide_eq_true_2.
  - intros Hne. rewrite bool_decide_eq_false_2; [done|]. congruence.
Qed.

Lemma add_hands_over_witness :
  isMyProvider Fixture.nameOf "protocol" Fixture.HookB
    (add Fixture.nameOf Fixture.protocol2 (Some Fixture.HookB)
       (registered Fixture.nameOf Fixture.history)) = Ok true ∧
  isMyProvider Fixture.nameOf "protocol" Fixture.PassportGenerateHook
    (add Fixture.nameOf Fixture.protocol2 (Some Fixture.HookB)
       (registered Fixture.nameOf Fixture.history)) = Ok false.
Proof.
  split.
  - by apply (add_hands_over Fixture.nameOf Fixture.protocol2 (Some Fixture.HookB)).
  - by apply (add_hands_over Fixture.nameOf Fixture.protocol2 (Some Fixture.HookB)).
Defined.

(** X3.  A registration of a value erases a registration of the same value
    made just before it: the registry is the one the later call alone would
    have given, entry order included.  So [add] is idempotent. *)
Theorem add_over_add {Owner : Type} (nameOf : option Owner → string)
    (info info' : ProviderInfo) (owner owner' : option Owner) (this : t) :
  info_value info = info_value info' →
  add nameOf info owner (add nameOf info' owner' this) = add nameOf info owner this.
Proof.
  intros Hv. unfold add. simpl. f_equal. rewrite <- Hv. apply JsMapMore.set_set.
Qed.

Lemma add_over_add_witness :
  add Fixture.nameOf Fixture.protocol2 (Some Fixture.HookB)
    (add Fixture.nameOf Fixture.protocol (Some Fixture.HookA)
       (registered Fixture.nameOf Fixture.history))
  = add Fixture.nameOf Fixture.protocol2 (Some Fixture.HookB)
      (registered Fixture.nameOf Fixture.history).
Proof. by apply add_over_add. Defined.

(** X4.  [add] never removes an entry: [toArray] grows by one entry when the
    value is new to the registry and keeps its length when the value is
    present. *)
Theorem toArray_length_add {Owner : Type} (nameOf : option Owner → string)
    (info : ProviderInfo) (owner : option Owner) (this : t) :
  length (toArray (add nameOf info owner this)) =
  if get (info_value info) this is Some _
  then length (toArray this)
  else S (length (toArray this)).
Proof.
  unfold toArray, JsMap.values, get, add. simpl.
  rewrite !length_fmap. apply JsMapMore.length_set.
Qed.

(** X5.  Registrations of two different values commute for every reader by
    key: [get] and the ownership check cannot tell in which order the two
    calls came, and [toArray] has the same length. *)
Theorem adds_commute {Owner : Type} (nameOf : option Owner → string)
    (info1 info2 : ProviderInfo) (owner1 owner2 : option Owner) (this : t)
    (value : string) (o : Owner) :
  info_value info1 ≠ info_value info2 →
  let s12 := add nameOf info2 owner2 (add nameOf info1 owner1 this) in
  let s21 := add nameOf info1 owner1 (add nameOf info2 owner2 this) in
  get value s12 = get value s21 ∧
  isMyProvider nameOf value o s12 = isMyProvider nameOf value o s21 ∧
  length (toArray s12) = length (toArray s21).
Proof.
  intros Hne s12 s21.
  assert (get value s12 = get value s21) as Hget.
  { subst s12 s21. unfold get, add. simpl.
    destruct (decide (value = info_value info1)) as [->|H1];
      [|destruct (decide (value = info_value info2)) as [->|H2]].
    - rewrite JsMapFacts.get_set_ne by done. by rewrite !JsMapFacts.get_set_eq.
    - rewrite JsMapFacts.get_set_eq.
      rewrite JsMapFacts.get_set_ne by done. by rewrite JsMapFacts.get_set_eq.
    - by rewrite !JsMapFacts.get_set_ne by done. }
  split_and!; [done| |].
  - unfold get in Hget. unfold isMyProvider. by rewrite Hget.
  - subst s12 s21. rewrite !toArray_length_add. unfold get, add. simpl.
    rewrite !JsMapFacts.get_set_ne by done.
    by destruct (JsMap.get (info_value info1) (map this)),
                (JsMap.get (info_value info2) (map this)).
Qed.

Lemma adds_commute_witness :
  get "controller"
    (add Fixture.nameOf Fixture.controller (Some Fixture.HookB)
       (add Fixture.nameOf Fixture.protocol (Some Fixture.HookA) create))
  = get "controller"
      (add Fixture.nameOf Fixture.protocol (Some Fixture.HookA)
         (add Fixture.nameOf Fixture.controller (Some Fixture.HookB) create)).
Proof.
  apply (adds_commute Fixture.nameOf Fixture.protocol Fixture.controller
           (Some Fixture.HookA) (Some Fixture.HookB) create "controller" Fixture.HookA).
  discriminate.
Defined.

Section histories.
Context {Owner : Type} (nameOf : option Owner → string).
Implicit Types (adds : list (ProviderInfo * option Owner)).

Lemma lastAdd_elem_of adds value a : lastAdd value adds = Some a → a ∈ adds.
Proof.
  unfold lastAdd. intros H%last_Some_elem_of.
  by apply list_elem_of_filter in H as [_ ?].
Qed.

Lemma toArray_get adds (e : ProviderInfo) :
  e ∈ toArray (registered nameOf adds) ↔ get (info_value e) (registered nameOf adds) = Some e.
Proof.
  unfold toArray, JsMap.values, get. split.
  - intros ([k e'] & -> & Hin)%list_elem_of_fmap. simpl.
    pose proof (RegistryFacts.keyed_by_value nameOf adds) as Hkeyed.
    rewrite Forall_forall in Hkeyed. specialize (Hkeyed _ Hin). simpl in Hkeyed.
    rewrite Hkeyed. apply JsMapMore.elem_of_get; [|done].
    apply RegistryFacts.keys_registered_NoDup.
  - intros Hget%JsMapMore.get_elem_of. apply list_elem_of_fmap.
    by exists (info_value e, e).
Qed.

End histories.

(** X6.  In a registry built by [add] calls, the array and the lookup agree:
    an info is in [toArray] exactly when [get] of its own value gives that
    info back. *)
Theorem toArray_get_round_trip {Owner : Type} (nameOf : option Owner → string)
    (adds : list (ProviderInfo * option Owner)) (e : ProviderInfo) :
  e ∈ toArray (registered nameOf adds) ↔ get (info_value e) (registered nameOf adds) = Some e.
Proof. apply toArray_get. Qed.

(** X7.  In a registry built by [add] calls, every info of [toArray] is what
    one of the calls stored: its [owner] is the name of the owner of that
    call, never the [owner] property the info was passed with, and no entry
    is without an owner. *)
Theorem toArray_owner_from_call {Owner : Type} (nameOf : option Owner → string)
    (adds : list (ProviderInfo * option Owner)) (e : ProviderInfo) :
  e ∈ toArray (registered nameOf adds) →
  ∃ a, a ∈ adds ∧ e = stored nameOf a ∧ info_owner e = Some (nameOf a.2).
Proof.
  intros Hget%toArray_get. rewrite RegistryFacts.get_registered in Hget.
  destruct (lastAdd (info_value e) adds) as [a|] eqn:Hlast; [|done].
  injection Hget as <-. exists a. split_and!; [|done..].
  by eapply lastAdd_elem_of.
Qed.

Lemma toArray_owner_from_call_witness :
  ∃ a, a ∈ [({| info_name := "Protocol"; info_value := "protocol";
                info_model := None; info_baseDir := None;
                info_owner := Some "SomebodyElse" |}, Some Fixture.HookA)] ∧
       info_owner (stored Fixture.nameOf a) = Some "HookA".
Proof.
  destruct (toArray_owner_from_call Fixture.nameOf
              [({| info_name := "Protocol"; info_value := "protocol";
                   info_model := None; info_baseDir := None;
                   info_owner := Some "SomebodyElse" |}, Some Fixture.HookA)]
              {| info_name := "Protocol"; info_value := "protocol";
                 info_model := None; info_baseDir := None;
                 info_owner := Some "HookA" |})
    as (a & Ha & -> & Howner).
  - apply list_elem_of_here.
  - exists a. split; [exact Ha|]. rewrite Howner.
    apply list_elem_of_singleton in Ha as ->. reflexivity.
Defined.

End RegistryMore.

(** ** Strings, continued *)

Module StringMore.

#[local] Arguments String.append !_ _ / : simpl nomatch.

Lemma append_assoc (s1 s2 s3 : string) : (s1 +:+ s2) +:+ s3 = s1 +:+ (s2 +:+ s3).
Proof. induction s1 as [|c s1 IH]; simpl; [done | by rewrite IH]. Qed.

(** What contains a keyword contains what the keyword contains. *)
Lemma containsIgnoringCase_trans (toLowerCase : string → string) (s k' k : string) :
  containsIgnoringCase toLowerCase k' k →
  containsIgnoringCase toLowerCase s k' →
  containsIgnoringCase toLowerCase s k.
Proof.
  intros (b' & a' & Hk') (b & a & Hs). exists (b +:+ b'), (a' +:+ a).
  by rewrite Hs, Hk', !append_assoc.
Qed.

Lemma eqb_empty (k : string) : k ≠ "" → String.eqb k "" = false.
Proof. intros Hk. by destruct (String.eqb_spec k ""). Qed.

End StringMore.

(** ** The passport generate hook, continued *)

Module HookMore.
Import PassportGenerateHook.

Section source.
Context (toLowerCase : string → string).

(** The list [source] gives for a keyword that is not empty. *)
Lemma source_keyword (choices : list Choice) (state : Obj) (k : string) (w : World) :
  k ≠ "" →
  source toLowerCase choices state (Some k) w =
    (Ok (filter (λ item,
           includes (toLowerCase (choice_name item)) (toLowerCase k) = true) choices), w).
Proof.
  intros Hk. unfold source. simpl. by rewrite StringMore.eqb_empty.
Qed.

Lemma source_sublist (choices : list Choice) (state : Obj) (keyword : option string)
    (w : World) :
  ∃ r, source toLowerCase choices state keyword w = (Ok r, w) ∧ r `sublist_of` choices.
Proof.
  unfold source. destruct (truthy keyword).
  - eexists. split; [done|]. apply sublist_filter.
  - by exists choices.
Qed.

End source.

(** X8.  A keyword that holds another narrows its choices.  When the new
    keyword in lower case holds the old keyword in lower case (neither being
    empty), the choices for the new keyword are among the choices for the old
    one, in the same order, and they are what [source] gives on the narrowed
    list; the choices are always among the fetched ones, in their order. *)
Theorem source_narrows (toLowerCase : string → string) (choices : list Choice)
    (state : Obj) (w : World) (k k' : string) :
  k ≠ "" →
  k' ≠ "" →
  containsIgnoringCase toLowerCase k' k →
  ∃ r r',
    source toLowerCase choices state (Some k) w = (Ok r, w) ∧
    source toLowerCase choices state (Some k') w = (Ok r', w) ∧
    r `sublist_of` choices ∧
    r' `sublist_of` r ∧
    source toLowerCase r state (Some k') w = (Ok r', w).
Proof.
  intros Hk Hk' Hpart.
  eexists _, _. rewrite !source_keyword by done.
  split_and!; [reflexivity | reflexivity | apply sublist_filter | |].
  - erewrite <- (list_filter_filter_l _ (λ item,
        includes (toLowerCase (choice_name item)) (toLowerCase k) = true)).
    + apply sublist_filter.
    + intros item. rewrite !StringFacts.includes_toLowerCase.
      by apply StringMore.containsIgnoringCase_trans.
  - do 2 f_equal. apply list_filter_filter_l.
    intros item. rewrite !StringFacts.includes_toLowerCase.
    by apply StringMore.containsIgnoringCase_trans.
Qed.

Lemma source_narrows_witness :
  ∃ r r',
    source Fixture.toLowerCase (toChoice <$> Fixture.index) ∅ (Some "passport")
      Fixture.prompted = (Ok r, Fixture.prompted) ∧
    source Fixture.toLowerCase (toChoice <$> Fixture.index) ∅ (Some "Passport-L")
      Fixture.prompted = (Ok r', Fixture.prompted) ∧
    r' `sublist_of` r.
Proof.
  destruct (source_narrows Fixture.toLowerCase (toChoice <$> Fixture.index) ∅
              Fixture.prompted "passport" "Passport-L")
    as (r & r' & Hr & Hr' & _ & Hsub & _).
  - discriminate.
  - discriminate.
  - by exists "", "-l".
  - by exists r, r'.
Defined.

Section lifecycle.
Context {Owner : Type} (nameOf : option Owner → string) (Hook : Owner).
Context (paramCase : string → string) (TEMPLATE_DIR : string)
    (numberToString : Z → string).
Context (getPackages : nat → Result (list Package))
    (toLowerCase : string → string).

#[local] Abbreviation exec := (onGenerateExec nameOf Hook paramCase TEMPLATE_DIR numberToString).
#[local] Abbreviation prompt := (onGeneratePrompt getPackages toLowerCase).

Lemma find_by_name (pkgs : list Package) (pkg : Package) :
  pkg ∈ pkgs →
  ∃ details,
    List.find (λ p, String.eqb (pkg_name p) (pkg_name pkg)) pkgs = Some details ∧
    details ∈ pkgs ∧ pkg_name details = pkg_name pkg.
Proof.
  induction pkgs as [|p pkgs IH]; [by intros ?%elem_of_nil|].
  intros Hin. simpl. destruct (String.eqb_spec (pkg_name p) (pkg_name pkg)) as [Heq|Hne].
  - exists p. split_and!; [done | apply list_elem_of_here | done].
  - apply elem_of_cons in Hin as [->|Hin]; [done|].
    destruct (IH Hin) as (details & Hfind & Hd & Hname).
    exists details. split_and!; [done | by apply list_elem_of_further | done].
Qed.

(** The owned branch of [onGenerateExec], with the task it gives. *)
Lemma exec_mine (ctx : IPassportGenerationOptions) (w : World) (pkgs : list Package) :
  ProvidersInfoService.isMyProvider nameOf (ctx_type ctx) Hook (providers w) = Ok true →
  packages w = Some pkgs →
  exec ctx w =
    (Ok [ {| title := "Generate " +:+ ctx_type ctx +:+ " file to '"
                        +:+ toStr numberToString (prop (mapOptions paramCase ctx) "symbolPath") +:+ ".ts'";
             task := λ srcRenderService,
               {| render_template :=
                    getTemplate TEMPLATE_DIR srcRenderService (ctx_passportPackage ctx);
                  render_data := delete "symbolPath" (mapOptions paramCase ctx);
                  render_output :=
                    toStr numberToString (prop (mapOptions paramCase ctx) "symbolPath") +:+ ".ts";
                  render_templateDir := TEMPLATE_DIR |} |} ],
     {| packages := packages w; providers := providers w; fetches := fetches w;
        dependencies := dependencies w ++
          [(ctx_passportPackage ctx,
            match List.find (λ pkg, String.eqb (pkg_name pkg) (ctx_passportPackage ctx)) pkgs
            with
            | Some details => pkg_dist_tags details ≫= latest
            | None => None
            end)] |}).
Proof.
  intros Hmine Hpkgs. destruct w as [cache registry n deps]. simpl in *. subst cache.
  HookFacts.run_hook. by rewrite Hmine.
Qed.

Lemma exec_throws (ctx : IPassportGenerationOptions) (w : World) (e : Error) :
  ProvidersInfoService.isMyProvider nameOf (ctx_type ctx) Hook (providers w) = Throw e →
  exec ctx w = (Throw e, w).
Proof. intros H. HookFacts.run_hook. by rewrite H. Qed.

Lemma symbolPath_mapped (ctx : IPassportGenerationOptions) :
  prop (mapOptions paramCase ctx) "symbolPath" = prop (ctx_rest ctx) "symbolPath".
Proof.
  unfold prop, mapOptions, toObject. by rewrite !lookup_insert_ne by done.
Qed.

End lifecycle.

(** X10.  The constructor of the hook takes the value ["protocol"] for the
    hook, whatever the registry held: afterwards [get] gives the [Protocol]
    info under the name of the hook and the ownership check is true for the
    hook; every other value is as it was, and the [packages] field is unset. *)
Theorem constructor_takes_protocol {Owner : Type} (nameOf : option Owner → string)
    (Hook : Owner) (providersInfoService : ProvidersInfoService.t) (w : World)
    (value : string) :
  let w' := constructor nameOf Hook providersInfoService w in
  ProvidersInfoService.get "protocol" (providers w')
    = Some {| info_name := "Protocol"; info_value := "protocol"; info_model := None;
              info_baseDir := None; info_owner := Some (nameOf (Some Hook)) |} ∧
  ProvidersInfoService.isMyProvider nameOf "protocol" Hook (providers w') = Ok true ∧
  (value ≠ "protocol" →
     ProvidersInfoService.get value (providers w')
       = ProvidersInfoService.get value providersInfoService) ∧
  packages w' = None.
Proof.
  intros w'. subst w'.
  unfold constructor, ProvidersInfoService.get, ProvidersInfoService.isMyProvider,
    ProvidersInfoService.add. simpl.
  rewrite JsMapFacts.get_set_eq. simpl. split_and!; [done| |  |done].
  - by rewrite bool_decide_eq_true_2.
  - intros Hne. by rewrite JsMapFacts.get_set_ne.
Qed.

Lemma constructor_takes_protocol_witness :
  ProvidersInfoService.get "controller"
    (providers (constructor Fixture.nameOf Fixture.PassportGenerateHook
                  (ProvidersInfoService.registered Fixture.nameOf Fixture.history)
                  Fixture.emptyWorld))
  = ProvidersInfoService.get "controller"
      (ProvidersInfoService.registered Fixture.nameOf Fixture.history).
Proof.
  by apply (constructor_takes_protocol Fixture.nameOf Fixture.PassportGenerateHook
              (ProvidersInfoService.registered Fixture.nameOf Fixture.history)
              Fixture.emptyWorld "controller").
Defined.

(** X11.  The prompt phase asks the package index once, whether the answer
    comes or not, and touches neither the registry nor the dependencies.
    When the index rejects, the prompt phase rejects with the same reason and
    the [packages] field keeps what it held; when it answers, the field holds
    the answer, so a second prompt phase replaces the list of the first. *)
Theorem onGeneratePrompt_frame (getPackages : nat → Result (list Package))
    (toLowerCase : string → string)
    (initialOption : Obj) (w : World) :
  let r := onGeneratePrompt getPackages toLowerCase initialOption w in
  fetches r.2 = S (fetches w) ∧
  providers r.2 = providers w ∧
  dependencies r.2 = dependencies w ∧
  (∀ e, getPackages (fetches w) = Throw e → r.1 = Throw e ∧ packages r.2 = packages w) ∧
  (∀ pkgs, getPackages (fetches w) = Ok pkgs →
     packages r.2 = Some pkgs ∧
     ∀ pkgs' initialOption',
       getPackages (S (fetches w)) = Ok pkgs' →
       let r' := onGeneratePrompt getPackages toLowerCase initialOption' r.2 in
       packages r'.2 = Some pkgs' ∧ fetches r'.2 = S (S (fetches w))).
Proof.
  intros r. subst r. destruct (getPackages (fetches w)) as [pkgs|e] eqn:Hfetch.
  - rewrite (HookFacts.onGeneratePrompt_ok _ _ _ _ _ Hfetch). simpl.
    split_and!; [done..| |].
    + intros e. discriminate.
    + intros pkgs0 [= <-]. split; [done|]. intros pkgs' initialOption' Hfetch'.
      by erewrite HookFacts.onGeneratePrompt_ok.
  - rewrite (HookFacts.onGeneratePrompt_rejected _ _ _ _ _ Hfetch). simpl.
    split_and!; [done..| |].
    + by intros e0 [= <-].
    + intros pkgs. discriminate.
Qed.

Lemma onGeneratePrompt_frame_witness :
  packages (onGeneratePrompt (λ n, if n is 0 then Throw (Rejected "offline")
                                   else Ok Fixture.index)
              Fixture.toLowerCase ∅ Fixture.started).2 = None ∧
  packages (onGeneratePrompt Fixture.getPackages Fixture.toLowerCase ∅ Fixture.started).2
    = Some Fixture.index.
Proof.
  split.
  - apply (onGeneratePrompt_frame (λ n, if n is 0 then Throw (Rejected "offline")
                                        else Ok Fixture.index)
             Fixture.toLowerCase ∅ Fixture.started) with (e := Rejected "offline").
    reflexivity.
  - apply (onGeneratePrompt_frame Fixture.getPackages Fixture.toLowerCase ∅
             Fixture.started).
    reflexivity.
Defined.

(** X12.  A package chosen from the offered list is found again in the exec
    phase: after the prompt phase, for every choice [source] gives for any
    keyword, the lookup of the version under the value of the choice finds a
    fetched package of that name and gives its [latest] dist-tag. *)
Theorem chosen_package_is_found (getPackages : nat → Result (list Package))
    (toLowerCase : string → string)
    (initialOption : Obj) (w : World) (pkgs : list Package) :
  getPackages (fetches w) = Ok pkgs →
  ∃ q w', onGeneratePrompt getPackages toLowerCase initialOption w = (Ok [q], w') ∧
    ∀ (state : Obj) (keyword : option string) (w'' : World),
    ∃ r, q_source q state keyword w'' = (Ok r, w'') ∧
      ∀ choice, choice ∈ r →
        ∃ details, details ∈ pkgs ∧ pkg_name details = choice_value choice ∧
          getPassportPackageVersion (choice_value choice) w'
            = (Ok (pkg_dist_tags details ≫= latest), w').
Proof.
  intros Hfetch. rewrite (HookFacts.onGeneratePrompt_ok _ _ _ _ _ Hfetch).
  eexists _, _. split; [reflexivity|]. simpl. intros state keyword w''.
  destruct (source_sublist toLowerCase (toChoice <$> pkgs) state keyword w'')
    as (r & Hr & Hsub).
  exists r. split; [done|]. intros choice Hin.
  apply (sublist_subseteq _ _ Hsub) in Hin.
  apply list_elem_of_fmap in Hin as (pkg & -> & Hpkg). simpl.
  destruct (find_by_name pkgs pkg Hpkg) as (details & Hfind & Hd & Hname).
  exists details. split_and!; [done..|].
  erewrite HookFacts.getPassportPackageVersion_set by done. by rewrite Hfind.
Qed.

Lemma chosen_package_is_found_witness :
  ∃ q w', onGeneratePrompt Fixture.getPackages Fixture.toLowerCase ∅ Fixture.started = (Ok [q], w') ∧
    ∃ r, q_source q ∅ (Some "local") w' = (Ok r, w') ∧ r = [toChoice Fixture.passportLocal].
Proof.
  destruct (chosen_package_is_found Fixture.getPackages Fixture.toLowerCase ∅ Fixture.started Fixture.index
              eq_refl) as (q & w' & Hq & Hsource).
  exists q, w'. split; [exact Hq|].
  destruct (Hsource ∅ (Some "local") w') as (r & Hr & _).
  exists r. split; [exact Hr|].
  injection Hq as <- <-. simpl in Hr. by injection Hr as <-.
Defined.

(** X13.  [onGenerateExec] never asks the package index and never writes the
    registry or the [packages] field.  It leaves the dependencies as they are
    or adds one entry at the end, for the passport package of the context;
    when it throws, or gives no task, nothing at all has changed, and all it
    throws is the error of a read on a missing entry or list. *)
Theorem onGenerateExec_frame {Owner : Type} (nameOf : option Owner → string)
    (Hook : Owner) (paramCase : string → string) (TEMPLATE_DIR : string)
    (numberToString : Z → string)
    (ctx : IPassportGenerationOptions) (w : World) :
  let r := onGenerateExec nameOf Hook paramCase TEMPLATE_DIR numberToString ctx w in
  packages r.2 = packages w ∧
  providers r.2 = providers w ∧
  fetches r.2 = fetches w ∧
  (dependencies r.2 = dependencies w ∨
   ∃ version, dependencies r.2 = dependencies w ++ [(ctx_passportPackage ctx, version)]) ∧
  (∀ e, r.1 = Throw e → e = TypeError ∧ r.2 = w) ∧
  (r.1 = Ok [] → r.2 = w).
Proof.
  intros r. subst r.
  destruct (ProvidersInfoService.isMyProvider nameOf (ctx_type ctx) Hook (providers w))
    as [[|]|e] eqn:Hmine.
  - destruct (packages w) as [pkgs|] eqn:Hpkgs.
    + rewrite (exec_mine nameOf Hook paramCase TEMPLATE_DIR numberToString ctx w pkgs Hmine Hpkgs). simpl.
      split_and!; [done..| by right; eexists | discriminate | discriminate].
    + rewrite (HookFacts.onGenerateExec_unset nameOf Hook paramCase TEMPLATE_DIR numberToString
                 ctx w Hmine Hpkgs). simpl.
      split_and!; [done..| by left | by intros e [= <-] | discriminate].
  - rewrite (HookFacts.onGenerateExec_not_mine nameOf Hook paramCase TEMPLATE_DIR numberToString
               ctx w Hmine). simpl.
    split_and!; [done..| by left | discriminate | done].
  - rewrite (exec_throws nameOf Hook paramCase TEMPLATE_DIR numberToString ctx w e Hmine). simpl.
    split_and!; [done..| by left | | discriminate].
    intros e0 [= <-]. split; [|done].
    unfold ProvidersInfoService.isMyProvider in Hmine.
    destruct (JsMap.get _ _); [discriminate | by injection Hmine as <-].
Qed.

Lemma onGenerateExec_frame_witness :
  (onGenerateExec Fixture.nameOf Fixture.PassportGenerateHook Fixture.paramCase
     Fixture.TEMPLATE_DIR Fixture.numberToString Fixture.controllerCtx Fixture.threeHooks).2 = Fixture.threeHooks.
Proof.
  apply (onGenerateExec_frame Fixture.nameOf Fixture.PassportGenerateHook
           Fixture.paramCase Fixture.TEMPLATE_DIR Fixture.numberToString Fixture.controllerCtx Fixture.threeHooks).
  reflexivity.
Defined.

(** X14.  For a context whose type no provider registers, [onGenerateExec]
    throws on the ownership check and changes nothing. *)
Theorem onGenerateExec_unregistered_type {Owner : Type} (nameOf : option Owner → string)
    (Hook : Owner) (paramCase : string → string) (TEMPLATE_DIR : string)
    (numberToString : Z → string)
    (ctx : IPassportGenerationOptions) (w : World) :
  ProvidersInfoService.get (ctx_type ctx) (providers w) = None →
  onGenerateExec nameOf Hook paramCase TEMPLATE_DIR numberToString ctx w = (Throw TypeError, w).
Proof.
  intros Hget. apply exec_throws.
  unfold ProvidersInfoService.get in Hget. unfold ProvidersInfoService.isMyProvider.
  by rewrite Hget.
Qed.

Lemma onGenerateExec_unregistered_type_witness :
  onGenerateExec Fixture.nameOf Fixture.PassportGenerateHook Fixture.paramCase
    Fixture.TEMPLATE_DIR Fixture.numberToString Fixture.controllerCtx Fixture.started
  = (Throw TypeError, Fixture.started).
Proof. by apply onGenerateExec_unregistered_type. Defined.

(** X15.  The task of [onGenerateExec] writes to the [symbolPath] of the
    context with [.ts] added, and its title names that file; the data it
    hands to the template are the mapped context without [symbolPath]: the
    param-cased [protocolName], and every other property of the context as it
    is.  A context without [symbolPath] gives the file [undefined.ts]. *)
Theorem task_writes_symbolPath {Owner : Type} (nameOf : option Owner → string)
    (Hook : Owner) (paramCase : string → string) (TEMPLATE_DIR : string)
    (numberToString : Z → string)
    (ctx : IPassportGenerationOptions) (w : World) (entry : ProviderInfo)
    (pkgs : list Package) :
  ProvidersInfoService.get (ctx_type ctx) (providers w) = Some entry →
  info_owner entry = Some (nameOf (Some Hook)) →
  packages w = Some pkgs →
  ∃ t, (onGenerateExec nameOf Hook paramCase TEMPLATE_DIR numberToString ctx w).1 = Ok [t] ∧
    let file := toStr numberToString (prop (ctx_rest ctx) "symbolPath") +:+ ".ts" in
    title t = "Generate " +:+ ctx_type ctx +:+ " file to '"
                +:+ toStr numberToString (prop (ctx_rest ctx) "symbolPath") +:+ ".ts'" ∧
    (ctx_rest ctx !! "symbolPath" = None → file = "undefined.ts") ∧
    ∀ srcRenderService,
      let call := task t srcRenderService in
      render_output call = file ∧
      render_data call !! "symbolPath" = None ∧
      render_data call !! "protocolName" = Some (VStr (paramCase (ctx_name ctx))) ∧
      ∀ k, k ≠ "symbolPath" → k ≠ "protocolName" →
           render_data call !! k = toObject ctx !! k.
Proof.
  intros Hget Hown Hpkgs.
  pose proof (HookFacts.isMyProvider_get nameOf _ Hook _ _ Hget) as Hmine.
  rewrite bool_decide_eq_true_2 in Hmine by done.
  rewrite (exec_mine nameOf Hook paramCase TEMPLATE_DIR numberToString ctx w pkgs Hmine Hpkgs).
  eexists. split; [reflexivity|]. simpl. rewrite !symbolPath_mapped.
  split_and!; [done| |].
  - intros Hnone. unfold prop. by rewrite Hnone.
  - intros srv. simpl. split_and!; [done| | |].
    + apply lookup_delete_eq.
    + rewrite lookup_delete_ne by done. unfold mapOptions.
      rewrite lookup_insert_ne by done. apply lookup_insert_eq.
    + intros k Hk1 Hk2. rewrite lookup_delete_ne by done. unfold mapOptions.
      destruct (decide (k = "passportPackage")) as [->|Hk3].
      * rewrite lookup_insert_eq. unfold toObject. by rewrite lookup_insert_eq.
      * by rewrite !lookup_insert_ne by done.
Qed.

Lemma task_writes_symbolPath_witness :
  ∃ t, (onGenerateExec Fixture.nameOf Fixture.PassportGenerateHook Fixture.paramCase
          Fixture.TEMPLATE_DIR Fixture.numberToString Fixture.protocolCtx Fixture.prompted).1 = Ok [t] ∧
       title t = "Generate protocol file to 'protocols/LocalLoginProtocol.ts'" ∧
       render_output (task t Fixture.renderer) = "protocols/LocalLoginProtocol.ts".
Proof.
  destruct (task_writes_symbolPath Fixture.nameOf Fixture.PassportGenerateHook
              Fixture.paramCase Fixture.TEMPLATE_DIR Fixture.numberToString Fixture.protocolCtx Fixture.prompted
              (ProvidersInfoService.stored Fixture.nameOf
                 (Fixture.protocol, Some Fixture.PassportGenerateHook))
              Fixture.index eq_refl eq_refl eq_refl) as (t & Ht & Htitle & _ & Hcall).
  exists t. split_and!; [exact Ht | exact Htitle |].
  by destruct (Hcall Fixture.renderer) as (-> & _).
Defined.

End HookMore.

(** ** The init command *)

Module InitCmdFacts.
Import InitCmd.

Lemma featureEntries_key (entries : list (string * ContextValue)) (k : string) :
  k ∈ (featureEntries entries).*1 ↔ String.prefix "features" k = true ∧ k ∈ entries.*1.
Proof.
  unfold featureEntries. rewrite !list_elem_of_fmap. split.
  - intros ([k' v] & -> & [Hk Hin]%list_elem_of_filter). split; [done|]. by exists (k', v).
  - intros (Hk & [k' v] & -> & Hin). exists (k', v). split; [done|].
    by apply list_elem_of_filter.
Qed.

Lemma featureElements_elem_of (entries : list (string * ContextValue)) (e : Element) :
  e ∈ featureElements entries ↔
  ∃ k v, (k, v) ∈ entries ∧ String.prefix "features" k = true ∧ e ∈ concatValue v.
Proof.
  unfold featureElements, featureEntries. rewrite list_elem_of_bind. split.
  - intros ([k v] & He & [Hk Hin]%list_elem_of_filter). by exists k, v.
  - intros (k & v & Hin & Hk & He). exists (k, v). split; [done|].
    by apply list_elem_of_filter.
Qed.

Lemma deleted_lookup (l : list (string * ContextValue)) (o : gmap string ContextValue)
    (k : string) :
  foldl (λ o entry, delete entry.1 o) o l !! k = if decide (k ∈ l.*1) then None else o !! k.
Proof.
  revert o. induction l as [|[k' v] l IH]; intros o.
  { by rewrite decide_False by apply not_elem_of_nil. }
  csimpl.
  - rewrite IH. destruct (decide (k ∈ l.*1)) as [Hin|Hnin].
    + by rewrite decide_True by (by apply list_elem_of_further).
    + destruct (decide (k = k')) as [->|Hne].
      * rewrite decide_True by apply list_elem_of_here. apply lookup_delete_eq.
      * rewrite decide_False by (rewrite elem_of_cons; intuition congruence).
        by apply lookup_delete_ne.
Qed.

Section flags.
Context (camelCase : string → string).

Lemma flagged_lookup (types : list string) (o : gmap string ContextValue) (k : string) :
  foldl (λ o type, <[camelCase type := flag]> o) o types !! k =
  if decide (k ∈ camelCase <$> types) then Some flag else o !! k.
Proof.
  revert o. induction types as [|t types IH]; intros o.
  { by rewrite decide_False by apply not_elem_of_nil. }
  csimpl.
  - rewrite IH. destruct (decide (k ∈ camelCase <$> types)) as [Hin|Hnin].
    + by rewrite decide_True by (by apply list_elem_of_further).
    + destruct (decide (k = camelCase t)) as [->|Hne].
      * rewrite decide_True by apply list_elem_of_here. apply lookup_insert_eq.
      * rewrite decide_False by (rewrite elem_of_cons; intuition congruence).
        by apply lookup_insert_ne.
Qed.

Lemma setFlags_features (fl : list FeatureValue) (o : gmap string ContextValue) :
  ∃ o', setFlags camelCase (EFeature <$> fl) o = (Ok (), o') ∧
        ∀ k, o' !! k = if decide (k ∈ flagKeys camelCase fl) then Some flag else o !! k.
Proof.
  unfold flagKeys. revert o. induction fl as [|f fl IH]; intros o.
  { exists o. split; [done|]. intros k. by rewrite decide_False by apply not_elem_of_nil. }
  csimpl.
  - destruct (IH (setFlagsOf camelCase f o)) as (o' & Hrun & Hlook).
    exists o'. split; [done|]. intros k. rewrite Hlook.
    unfold setFlagsOf. rewrite flagged_lookup.
    destruct (decide (k ∈ fl ≫= (λ f0, camelCase <$> split ":" (feature_type f0))))
      as [Hin|Hnin].
    + by rewrite decide_True by (apply elem_of_app; by right).
    + destruct (decide (k ∈ camelCase <$> split ":" (feature_type f))) as [Hk|Hk].
      * by rewrite decide_True by (apply elem_of_app; by left).
      * by rewrite decide_False by (rewrite elem_of_app; intuition).
Qed.

Lemma setFlags_lookup (features : list Element) (o : gmap string ContextValue) (k : string) :
  (setFlags camelCase features o).2 !! k = o !! k ∨
  (setFlags camelCase features o).2 !! k = Some flag.
Proof.
  revert o. induction features as [|[v|f] features IH]; intros o; simpl; [by left..|].
  destruct (IH (setFlagsOf camelCase f o)) as [Hsame|Hflag]; [|by right].
  rewrite Hsame. unfold setFlagsOf. rewrite flagged_lookup. case_decide; [by right | by left].
Qed.

Lemma setFlags_plain (features : list Element) (o : gmap string ContextValue) (v : JsValue) :
  EPlain v ∈ features → (setFlags camelCase features o).1 = Throw TypeError.
Proof.
  revert o. induction features as [|[v'|f] features IH]; intros o Hin; simpl.
  - by apply elem_of_nil in Hin.
  - done.
  - apply IH. by apply elem_of_cons in Hin as [?|?].
Qed.

End flags.

Section command.
Context (paramCase camelCase : string → string).
Context (basename : string → string) (join : string → string → string).
Context (srcDir : option string).

#[local] Abbreviation mapContext := (mapContext paramCase camelCase basename join srcDir).
#[local] Abbreviation objectOf := (objectOf paramCase basename).

Lemma mapContext_ok (c : InitCmdContext) (d : string) (fl : list FeatureValue) :
  featureElements (init_entries c) = EFeature <$> fl →
  ∃ flagged,
    mapContext c d =
      (Ok (<["srcDir" := Single (EPlain (from_option VStr VUndefined srcDir))]>
             (<["features" := Several (EFeature <$> fl)]> flagged)),
       {| ctx := flagged; dir := dirOf paramCase basename join c d |}) ∧
    ∀ k, flagged !! k =
         if decide (k ∈ flagKeys camelCase fl) then Some flag
         else if decide (k ∈ (featureEntries (init_entries c)).*1) then None
         else objectOf c d !! k.
Proof.
  intros Hfl. unfold InitCmd.mapContext. rewrite Hfl.
  destruct (setFlags_features camelCase fl (deleteFeatures (init_entries c) (objectOf c d)))
    as (flagged & -> & Hlook).
  exists flagged. split; [done|]. intros k. rewrite Hlook.
  unfold deleteFeatures. by rewrite deleted_lookup.
Qed.

End command.

Lemma endsWith_spec (s suffix : string) :
  endsWith s suffix = true ↔ ∃ before, s = before +:+ suffix.
Proof.
  induction s as [|c s IH]; cbn [endsWith]; rewrite orb_true_iff, String.eqb_eq.
  - split.
    + intros [->|?]; [by exists "" | done].
    + intros [before H]. left. destruct before; [done | discriminate].
  - rewrite IH. split.
    + intros [->|[before ->]]; [by exists "" | by exists (String c before)].
    + intros [[|c' before] H].
      * by left.
      * right. exists before. by injection H.
Qed.

Lemma not_features_key (k : string) :
  String.prefix "features" k = true → k ≠ "projectName" ∧ k ≠ "root" ∧ k ≠ "srcDir".
Proof. intros Hk. split_and!; intros ->; discriminate Hk. Qed.

(** X16.  [$mapContext] throws when a property whose key starts with
    [features] holds, alone or in its array, something that is no feature.
    By then the directory of the manifest is already the new one, and every
    such property is already gone from the object of the caller (or is a flag
    now): nothing is rolled back. *)
Theorem mapContext_throws_on_non_feature (paramCase camelCase basename : string → string)
    (join : string → string → string) (srcDir : option string)
    (c : InitCmdContext) (d : string) (k : string) (v : ContextValue) (x : JsValue) :
  (k, v) ∈ init_entries c →
  String.prefix "features" k = true →
  EPlain x ∈ concatValue v →
  let r := mapContext paramCase camelCase basename join srcDir c d in
  r.1 = Throw TypeError ∧
  dir r.2 = dirOf paramCase basename join c d ∧
  ∀ k' v', (k', v') ∈ init_entries c → String.prefix "features" k' = true →
           ctx r.2 !! k' = None ∨ ctx r.2 !! k' = Some flag.
Proof.
  intros Hin Hk Hx r. subst r. unfold mapContext.
  assert (EPlain x ∈ featureElements (init_entries c)) as Hbad.
  { apply featureElements_elem_of. by exists k, v. }
  pose proof (setFlags_plain camelCase _
                (deleteFeatures (init_entries c) (objectOf paramCase basename c d)) x Hbad)
    as Hthrow.
  pose proof (setFlags_lookup camelCase (featureElements (init_entries c))
                (deleteFeatures (init_entries c) (objectOf paramCase basename c d)))
    as Hlook.
  destruct (setFlags camelCase _ _) as [[[]|e] flagged]; simpl in *; [done|].
  injection Hthrow as ->. split_and!; [done..|].
  intros k' v' Hin' Hk'. destruct (Hlook k') as [Hsame|Hflag]; [|by right].
  left. rewrite Hsame. unfold deleteFeatures. rewrite deleted_lookup.
  rewrite decide_True; [done|]. apply featureEntries_key. split; [done|].
  apply list_elem_of_fmap. by exists (k', v').
Qed.

Lemma mapContext_throws_on_non_feature_witness :
  (mapContext Fixture.paramCase InitFixture.camelCase InitFixture.basename
     InitFixture.join None InitFixture.badAnswers "/home/me").1 = Throw TypeError.
Proof.
  apply (mapContext_throws_on_non_feature Fixture.paramCase InitFixture.camelCase
           InitFixture.basename InitFixture.join None InitFixture.badAnswers "/home/me"
           "featuresNote" (str "none") (VStr "none")).
  - apply list_elem_of_further, list_elem_of_here.
  - reflexivity.
  - apply list_elem_of_here.
Defined.

(** X17.  When everything under the keys that start with [features] is a
    feature, [$mapContext] returns a context whose [features] holds exactly
    those features, in the order of the properties; no other property whose
    key starts with [features] is left in the result, and none at all in the
    object of the caller (flags that the features set apart). *)
Theorem mapContext_collects_features (paramCase camelCase basename : string → string)
    (join : string → string → string) (srcDir : option string)
    (c : InitCmdContext) (d : string) (fl : list FeatureValue) :
  featureElements (init_entries c) = EFeature <$> fl →
  ∃ out st,
    mapContext paramCase camelCase basename join srcDir c d = (Ok out, st) ∧
    out !! "features" = Some (Several (EFeature <$> fl)) ∧
    (∀ f, f ∈ fl ↔
          ∃ k v, (k, v) ∈ init_entries c ∧ String.prefix "features" k = true ∧
                 EFeature f ∈ concatValue v) ∧
    (∀ k, String.prefix "features" k = true → k ∉ flagKeys camelCase fl →
          ctx st !! k = None ∧ (k ≠ "features" → out !! k = None)).
Proof.
  intros Hfl.
  destruct (mapContext_ok paramCase camelCase basename join srcDir c d fl Hfl)
    as (flagged & -> & Hlook).
  eexists _, _. split; [reflexivity|]. simpl. split_and!.
  - rewrite lookup_insert_ne by done. apply lookup_insert_eq.
  - intros f. rewrite <- featureElements_elem_of, Hfl, list_elem_of_fmap. split.
    + intros Hf. by exists f.
    + by intros (f' & [= <-] & Hf).
  - intros k Hk Hnoflag.
    destruct (not_features_key k Hk) as (Hk1 & Hk2 & Hk3).
    assert (flagged !! k = None) as Hnone.
    { rewrite Hlook, decide_False by done. case_decide as Hentry; [done|].
      unfold objectOf. rewrite lookup_insert_ne by done.
      assert ((list_to_map (init_entries c) : gmap string ContextValue) !! k = None) as Hmap.
      { apply not_elem_of_list_to_map. intros Hkeys. apply Hentry.
        by apply featureEntries_key. }
      destruct (init_root c); [by rewrite lookup_insert_ne|done]. }
    split; [done|]. intros Hk4. by rewrite !lookup_insert_ne.
Qed.

Lemma mapContext_collects_features_witness :
  ∃ out st,
    mapContext Fixture.paramCase InitFixture.camelCase InitFixture.basename
      InitFixture.join (Some "src") InitFixture.answers "/home/me" = (Ok out, st) ∧
    out !! "features"
      = Some (Several [EFeature InitFixture.swagger; EFeature InitFixture.typeorm]) ∧
    out !! "featuresTypeORM" = None.
Proof.
  destruct (mapContext_collects_features Fixture.paramCase InitFixture.camelCase
              InitFixture.basename InitFixture.join (Some "src") InitFixture.answers
              "/home/me" [InitFixture.swagger; InitFixture.typeorm] eq_refl)
    as (out & st & Hrun & Hfeatures & _ & Hgone).
  exists out, st. split_and!; [done..|].
  apply (Hgone "featuresTypeORM"); [reflexivity | | discriminate].
  by_evaluation.
Defined.

(** X18.  Every part of the [type] of every collected feature, as cut at
    [:], becomes a flag: the property named by its camel case is [true] in
    the result and in the object of the caller (the keys [features] and
    [srcDir] of the result apart, which are written last). *)
Theorem mapContext_sets_flags (paramCase camelCase basename : string → string)
    (join : string → string → string) (srcDir : option string)
    (c : InitCmdContext) (d : string) (fl : list FeatureValue)
    (f : FeatureValue) (part : string) :
  featureElements (init_entries c) = EFeature <$> fl →
  f ∈ fl →
  part ∈ split ":" (feature_type f) →
  ∃ out st,
    mapContext paramCase camelCase basename join srcDir c d = (Ok out, st) ∧
    ctx st !! camelCase part = Some flag ∧
    (camelCase part ≠ "features" → camelCase part ≠ "srcDir" →
       out !! camelCase part = Some flag).
Proof.
  intros Hfl Hf Hpart.
  destruct (mapContext_ok paramCase camelCase basename join srcDir c d fl Hfl)
    as (flagged & -> & Hlook).
  eexists _, _. split; [reflexivity|]. simpl.
  assert (flagged !! camelCase part = Some flag) as Hflag.
  { rewrite Hlook, decide_True; [done|]. unfold flagKeys.
    apply list_elem_of_bind. exists f. split; [|done]. by apply list_elem_of_fmap_2. }
  split; [done|]. intros H1 H2. by rewrite !lookup_insert_ne.
Qed.

Lemma mapContext_sets_flags_witness :
  ∃ out st,
    mapContext Fixture.paramCase InitFixture.camelCase InitFixture.basename
      InitFixture.join (Some "src") InitFixture.answers "/home/me" = (Ok out, st) ∧
    out !! "mysql" = Some flag.
Proof.
  destruct (mapContext_sets_flags Fixture.paramCase InitFixture.camelCase
              InitFixture.basename InitFixture.join (Some "src") InitFixture.answers
              "/home/me" [InitFixture.swagger; InitFixture.typeorm]
              InitFixture.typeorm "mysql" eq_refl)
    as (out & st & Hrun & _ & Hflag).
  - apply list_elem_of_further, list_elem_of_here.
  - by_evaluation.
  - exists out, st. split; [done|]. by apply Hflag.
Defined.

(** X19.  What [$mapContext] leaves alone.  In the result, [srcDir] is the
    one of the configuration; [projectName] is the param-cased name, taken
    from the directory of the manifest when the context has none; [root] and
    every other property whose key does not start with [features] are as in
    the context, unless a feature sets a flag of that name. *)
Theorem mapContext_frame (paramCase camelCase basename : string → string)
    (join : string → string → string) (srcDir : option string)
    (c : InitCmdContext) (d : string) (fl : list FeatureValue) :
  featureElements (init_entries c) = EFeature <$> fl →
  ∃ out st,
    mapContext paramCase camelCase basename join srcDir c d = (Ok out, st) ∧
    out !! "srcDir" = Some (Single (EPlain (from_option VStr VUndefined srcDir))) ∧
    ("projectName" ∉ flagKeys camelCase fl →
       out !! "projectName"
         = Some (str (paramCase (default (basename d) (truthyString (init_projectName c)))))) ∧
    (∀ root, init_root c = Some root → "root" ∉ flagKeys camelCase fl →
       out !! "root" = Some (str root)) ∧
    (∀ k v, NoDup (init_entries c).*1 → (k, v) ∈ init_entries c →
       String.prefix "features" k = false → k ∉ flagKeys camelCase fl →
       k ≠ "srcDir" → k ≠ "projectName" → k ≠ "root" →
       out !! k = Some v).
Proof.
  intros Hfl.
  destruct (mapContext_ok paramCase camelCase basename join srcDir c d fl Hfl)
    as (flagged & -> & Hlook).
  eexists _, _. split; [reflexivity|]. simpl.
  assert (∀ k, String.prefix "features" k = false → k ∉ flagKeys camelCase fl →
               flagged !! k = objectOf paramCase basename c d !! k) as Hkeep.
  { intros k Hk Hnoflag. rewrite Hlook, decide_False by done.
    rewrite decide_False; [done|]. intros [Hk' _]%featureEntries_key. congruence. }
  split_and!.
  - apply lookup_insert_eq.
  - intros Hnoflag. rewrite !lookup_insert_ne by done. rewrite Hkeep by done.
    unfold objectOf. apply lookup_insert_eq.
  - intros root Hroot Hnoflag. rewrite !lookup_insert_ne by done. rewrite Hkeep by done.
    unfold objectOf. rewrite lookup_insert_ne by done. rewrite Hroot.
    apply lookup_insert_eq.
  - intros k v Hnd Hin Hk Hnoflag H1 H2 H3.
    rewrite lookup_insert_ne by done.
    rewrite lookup_insert_ne by (intros <-; discriminate Hk).
    rewrite Hkeep by done. unfold objectOf. rewrite lookup_insert_ne by done.
    assert ((list_to_map (init_entries c) : gmap string ContextValue) !! k = Some v) as Hmap
      by (by apply elem_of_list_to_map).
    destruct (init_root c); [by rewrite lookup_insert_ne|done].
Qed.

Lemma mapContext_frame_witness :
  ∃ out st,
    mapContext Fixture.paramCase InitFixture.camelCase InitFixture.basename
      InitFixture.join (Some "src") InitFixture.answers "/home/me" = (Ok out, st) ∧
    out !! "srcDir" = Some (str "src") ∧
    out !! "root" = Some (str "my-app") ∧
    out !! "tsedVersion" = Some (str "latest").
Proof.
  destruct (mapContext_frame Fixture.paramCase InitFixture.camelCase
              InitFixture.basename InitFixture.join (Some "src") InitFixture.answers
              "/home/me" [InitFixture.swagger; InitFixture.typeorm] eq_refl)
    as (out & st & Hrun & HsrcDir & _ & Hroot & Hother).
  exists out, st. split_and!; [done..| |].
  - apply (Hroot "my-app"); [done|]. by_evaluation.
  - apply Hother; [by_evaluation | apply list_elem_of_here | done | by_evaluation | done..].
Defined.

(** X20.  The directory of the manifest after [$mapContext], whether the
    call returns or throws: it is as before when the context has no [root],
    an empty one or ["."], and when the directory already ends with the root;
    otherwise it is joined with the param-cased project name. *)
Theorem mapContext_dir (paramCase camelCase basename : string → string)
    (join : string → string → string) (srcDir : option string)
    (c : InitCmdContext) (d : string) :
  let st := (mapContext paramCase camelCase basename join srcDir c d).2 in
  (init_root c = None ∨ init_root c = Some "" ∨ init_root c = Some "." → dir st = d) ∧
  (∀ root before, init_root c = Some root → d = before +:+ root → dir st = d) ∧
  (∀ root, init_root c = Some root → root ≠ "" → root ≠ "." →
     (∀ before, d ≠ before +:+ root) →
     dir st = join d (paramCase (default (basename d) (truthyString (init_projectName c))))).
Proof.
  intros st.
  assert (dir st = dirOf paramCase basename join c d) as ->.
  { subst st. unfold mapContext. by destruct (setFlags _ _ _) as [[] ?]. }
  unfold dirOf, projectNameOf, truthyString. split_and!.
  - by intros [->|[->| ->]].
  - intros root before -> ->.
    destruct (String.eqb_spec root ""); [done|].
    rewrite (proj2 (endsWith_spec (before +:+ root) root)) by (by exists before).
    by rewrite andb_false_r.
  - intros root -> H1 H2 Hends.
    destruct (String.eqb_spec root ""); [done|].
    destruct (String.eqb_spec root "."); [done|].
    destruct (endsWith d root) eqn:He; [|done].
    apply endsWith_spec in He as [before ->]. by destruct (Hends before).
Qed.

Lemma mapContext_dir_witness :
  dir (mapContext Fixture.paramCase InitFixture.camelCase InitFixture.basename
         InitFixture.join None InitFixture.answers "/home/me").2 = "/home/me/my-app" ∧
  dir (mapContext Fixture.paramCase InitFixture.camelCase InitFixture.basename
         InitFixture.join None InitFixture.answers "/home/my-app").2 = "/home/my-app".
Proof.
  split.
  - apply (mapContext_dir Fixture.paramCase InitFixture.camelCase InitFixture.basename
             InitFixture.join None InitFixture.answers "/home/me") with (root := "my-app");
      [done..|].
    intros before Hd%eq_sym.
    assert (endsWith "/home/me" "my-app" = true) as He
      by (apply endsWith_spec; by exists before).
    discriminate He.
  - by apply (mapContext_dir Fixture.paramCase InitFixture.camelCase
                InitFixture.basename InitFixture.join None InitFixture.answers
                "/home/my-app") with (root := "my-app") (before := "/home/").
Defined.

(** X21.  [addFeatures] only adds calls, after the calls made before: a block
    is handed to the manifest exactly when a feature of the context has it
    (an empty block too), the blocks of one feature come in the order of the
    features, dependencies before development dependencies, and a feature
    without blocks gives no call. *)
Theorem addFeatures_calls (features : list FeatureValue) (calls : list ManifestCall) :
  ∃ added,
    addFeatures features calls = calls ++ added ∧
    (∀ block, AddDependencies block ∈ added ↔
              ∃ f, f ∈ features ∧ feature_dependencies f = Some block) ∧
    (∀ block, AddDevDependencies block ∈ added ↔
              ∃ f, f ∈ features ∧ feature_devDependencies f = Some block) ∧
    (∀ before f after, features = before ++ f :: after →
       addFeatures features calls =
         addFeatures after (addFeatures [f] (addFeatures before calls))) ∧
    ((∀ f, f ∈ features → feature_dependencies f = None ∧ feature_devDependencies f = None) →
       added = []).
Proof.
  revert calls. induction features as [|f features IH]; intros calls.
  - exists []. split_and!; [by rewrite app_nil_r| | | |done].
    + intros block. split; [by intros ?%elem_of_nil|].
      by intros (f & ?%elem_of_nil & _).
    + intros block. split; [by intros ?%elem_of_nil|].
      by intros (f & ?%elem_of_nil & _).
    + by intros [|? ?] ? ? ?.
  - set (own := match feature_dependencies f with
                | Some block => [AddDependencies block] | None => [] end ++
                match feature_devDependencies f with
                | Some block => [AddDevDependencies block] | None => [] end).
    assert (addFeatures (f :: features) calls = addFeatures features (calls ++ own)) as Hstep.
    { unfold addFeatures, own. simpl.
      destruct (feature_dependencies f), (feature_devDependencies f); simpl;
        by rewrite <- ?app_assoc, ?app_nil_r. }
    destruct (IH (calls ++ own)) as (added & Hrun & Hdeps & Hdev & _ & Hnone).
    exists (own ++ added). split_and!.
    + by rewrite Hstep, Hrun, app_assoc.
    + intros block. rewrite elem_of_app, Hdeps. split.
      * intros [Hown|(f' & Hf' & Hblock)].
        -- exists f. split; [apply list_elem_of_here|]. unfold own in Hown.
           destruct (feature_dependencies f), (feature_devDependencies f);
             repeat (apply elem_of_cons in Hown as [Hown|Hown]; [congruence|]);
             by apply elem_of_nil in Hown.
        -- exists f'. split; [by apply list_elem_of_further | done].
      * intros (f' & [->|Hf']%elem_of_cons & Hblock).
        -- left. unfold own. rewrite Hblock. apply list_elem_of_here.
        -- right. by exists f'.
    + intros block. rewrite elem_of_app, Hdev. split.
      * intros [Hown|(f' & Hf' & Hblock)].
        -- exists f. split; [apply list_elem_of_here|]. unfold own in Hown.
           destruct (feature_dependencies f), (feature_devDependencies f);
             repeat (apply elem_of_cons in Hown as [Hown|Hown]; [congruence|]);
             by apply elem_of_nil in Hown.
        -- exists f'. split; [by apply list_elem_of_further | done].
      * intros (f' & [->|Hf']%elem_of_cons & Hblock).
        -- left. unfold own. rewrite Hblock.
           destruct (feature_dependencies f);
             [apply list_elem_of_further|]; apply list_elem_of_here.
        -- right. by exists f'.
    + intros before f' after ->. unfold addFeatures.
      by rewrite foldl_app.
    + intros Hall. rewrite Hnone.
      * destruct (Hall f) as [Hd Hv]; [apply list_elem_of_here|].
        unfold own. by rewrite Hd, Hv.
      * intros f' Hf'. apply Hall. by apply list_elem_of_further.
Qed.

Lemma addFeatures_calls_witness :
  addFeatures [InitFixture.swagger; InitFixture.typeorm] []
  = [AddDependencies [("@tsed/swagger", "latest")];
     AddDependencies [("@tsed/typeorm", "latest"); ("mysql", "latest")]].
Proof.
  destruct (addFeatures_calls [InitFixture.swagger; InitFixture.typeorm] [])
    as (added & Hrun & _ & _ & Hsplit & _).
  rewrite (Hsplit [InitFixture.swagger] InitFixture.typeorm [] eq_refl). reflexivity.
Defined.

End InitCmdFacts.
